(** * Presence tracking bot (main.py): a shallow embedding and its properties

    The development follows the layout of [main.py]:
    - [Fetcher]   : [chunked], [get_presences] (lines 107-150)
    - [Tracker]   : the loop over the snapshot (lines 196-234) and the online
                    notifications (lines 236-244)
    - [Renderer]  : the status box (lines 246-275)
    - [Publisher] : send-or-edit of the status message (lines 277-299)
    - [Tick]      : [update_status_message] as a whole (lines 167-306), runs
                    of ticks, and the vocabulary of the specification
    - [Restart]   : [auto_restart_check] (lines 309-328)
    - [Examples]  : concrete ticks
    - [Friends]   : [get_friends_list] (lines 112-133)
    - [Usernames] : [get_usernames] (lines 152-164)
    - [Commands]  : [cmd_add], [cmd_hapus] (lines 331-350) and the monitored
                    set (lines 180-185)
    - [Acquire]   : what a tick fetches (lines 180-194)
    - [PublisherRun] : the publisher over successive ticks

    Time stamps ([datetime]) and durations ([timedelta]) are integers counting
    microseconds; user ids and message ids are integers.  Dictionaries that
    are only looked up and updated are finite maps, the set of online ids is
    a finite set, and [presence_map], which the loop iterates, is an
    insertion-ordered association list.  The two library methods the status
    box depends on, [strftime] and [str.lower], are parameters of the
    renderer and of the tick ([Renderer.pylib]); the answers of the network
    and the outcome of file writes are inputs of the functions that make
    the calls. *)

From stdpp Require Import gmap strings list pretty sorting.
From Stdlib Require Import ZArith Lia Ascii.

Open Scope Z_scope.

(** Outcome of a Python call: a value, or a raised exception. *)
Inductive exn := TypeError.

Inductive result (A : Type) :=
  | Ok (a : A)
  | Raise (e : exn).
Arguments Ok {A} a.
Arguments Raise {A} e.

(** A presence object of the upstream JSON: the fields the bot reads.
    [userPresenceType] and [lastLocation] may be missing ([dict.get]). *)
Record presence := Presence {
  userId : Z;
  userPresenceType : option Z;
  lastLocation : option string
}.

(** * Batching fetcher *)
Module Fetcher.

(** [range(0, stop, step)] for a positive [step]: 0, step, 2*step, ... < stop. *)
Definition range_step (stop step : nat) : list nat :=
  (λ k, k * step)%nat <$> seq 0 ((stop + step - 1) / step)%nat.

(** Python slice [l[i:j]] for [0 <= i <= j]. *)
Definition slice {A} (l : list A) (i j : nat) : list A :=
  take (j - i) (drop i l).

(** The items produced by the generator [chunked(iterable, n)]:
    [for i in range(0, len(iterable), n): yield iterable[i:i + n]]. *)
Definition chunked {A} (iterable : list A) (n : nat) : list (list A) :=
  (λ i, slice iterable i (i + n)) <$> range_step (length iterable) n.

(** What a name is bound to at run time, as far as [await] cares: [chunked]
    is declared [async def] and contains [yield], so calling it gives an
    asynchronous generator object; an [async def] without [yield] gives a
    coroutine. *)
Inductive pyobject (A : Type) :=
  | AsyncGenerator (items : A)
  | Coroutine (value : A).
Arguments AsyncGenerator {A} items.
Arguments Coroutine {A} value.

(** [await e]: a coroutine is run to its value; an asynchronous generator
    is not awaitable and the expression raises [TypeError]. *)
Definition await {A} (e : pyobject A) : result A :=
  match e with
  | Coroutine v => Ok v
  | AsyncGenerator _ => Raise TypeError
  end.

Definition call_chunked {A} (iterable : list A) (n : nat)
  : pyobject (list (list A)) :=
  AsyncGenerator (chunked iterable n).

(** An upstream answer: HTTP status and the [userPresences] of the body. *)
Record response := Response {
  status : Z;
  userPresences : list presence
}.

(** The upstream service: the answer to the [k]-th POST, given its payload. *)
Definition upstream := nat → list Z → response.

(** Body of the loop of [get_presences] (lines 143-149) run over a list of
    chunks, the first of them being POST number [k]: a non-200 answer is
    skipped with [continue], a 200 answer extends [results].  The second
    component records the payloads POSTed, in order. *)
Fixpoint presence_loop (up : upstream) (k : nat) (chunks : list (list Z))
    (results : list presence) (posted : list (list Z))
  : list presence * list (list Z) :=
  match chunks with
  | [] => (results, posted)
  | chunk :: rest =>
      let resp := up k chunk in
      if decide (status resp ≠ 200)
      then presence_loop up (S k) rest results (posted ++ [chunk])
      else presence_loop up (S k) rest (results ++ userPresences resp)
             (posted ++ [chunk])
  end.

(** [get_presences(user_ids)] (lines 135-150). *)
Definition get_presences (up : upstream) (user_ids : list Z)
  : result (list presence) :=
  match user_ids with
  | [] => Ok []
  | _ =>
      match await (call_chunked user_ids 100) with
      | Raise e => Raise e
      | Ok chunks => Ok (presence_loop up 0 chunks [] []).1
      end
  end.

(** Answers of the successful POSTs among those for [chunks], the first
    having number [k]. *)
Fixpoint successes (up : upstream) (k : nat) (chunks : list (list Z))
  : list presence :=
  match chunks with
  | [] => []
  | chunk :: rest =>
      (if decide (status (up k chunk) = 200)
       then userPresences (up k chunk) else [])
      ++ successes up (S k) rest
  end.

End Fetcher.

(** * Helper functions (lines 94-102) *)

(** [format_timedelta(td)]: [int(td.total_seconds())] truncates towards
    zero, [divmod] rounds down. *)
Definition format_timedelta (td : Z) : string :=
  let secs := td ÷ 1000000 in
  let hours := secs / 3600 in
  let rem := secs `mod` 3600 in
  let minutes := rem / 60 in
  let seconds := rem `mod` 60 in
  if decide (hours ≠ 0)
  then pretty hours +:+ "h " +:+ pretty minutes +:+ "m " +:+ pretty seconds +:+ "s"
  else if decide (minutes ≠ 0)
  then pretty minutes +:+ "m " +:+ pretty seconds +:+ "s"
  else pretty seconds +:+ "s".

(** * Globals of the bot (lines 78-88) *)

Definition RESTART_INTERVAL : Z := 12 * 60 * 60.
Definition BAR_LENGTH : Z := 20.

(** How [with open(path, "w") as f: json.dump(value, f)] ends: the value
    is written; or [open] raises and the file is left as it was; or
    [json.dump], or the flush on leaving the [with] block, raises after
    [open] has emptied the file, which is left empty or cut short. *)
Inductive write_outcome := Written | OpenFails | DumpFails.

(** What the start of the process reads from the file afterwards (lines
    56-60 and 64-70): the value written, the value the file had, or, from
    a file that is no JSON text, the default of the [except] branch. *)
Definition file_after {A} (w : write_outcome) (value old default : A) : A :=
  match w with
  | Written => value
  | OpenFails => old
  | DumpFails => default
  end.

(** The module-level variables the polling task reads and writes, and
    [state_file], the value the start of the process reads from
    [state.json] under ["status_message_id"] (lines 64-70 and 83): [None]
    when the file is missing, is no JSON text or has no such key. *)
Record bot_state := BotState {
  online_since : gmap Z Z;
  game_since : gmap Z Z;
  last_online_set : gset Z;
  status_message_id : option Z;
  state_file : option Z;
  START_TIME : Z
}.

(** The globals at process start: empty timers, the handle read back from
    [state.json]. *)
Definition initial_state (file : option Z) (start : Z) : bot_state :=
  BotState ∅ ∅ ∅ file file start.

(** Notifications sent to the notification channel.  [notif_channel.send]
    is wrapped in [try/except]: a failed delivery is logged and changes
    nothing else, so an event stands for the attempt to send it. *)
Inductive event :=
  | OfflineEvent (uid : Z) (name : string) (now : Z)
      (total_online total_game : Z)
  | OnlineEvent (uid : Z) (name : string) (t : Z).

(** * Session state tracker and notification emitter *)
Module Tracker.

(** [d[k] = v] on an insertion-ordered dictionary. *)
Fixpoint dict_set {V} (k : Z) (v : V) (d : list (Z * V)) : list (Z * V) :=
  match d with
  | [] => [(k, v)]
  | (k', v') :: d' =>
      if decide (k = k') then (k, v) :: d' else (k', v') :: dict_set k v d'
  end.

(** [presence_map = {int(p.get("userId")): p for p in presences}]. *)
Definition presence_map (presences : list presence) : list (Z * presence) :=
  foldl (λ d p, dict_set (userId p) p d) [] presences.

(** [presence.get("userPresenceType", 0)]. *)
Definition presence_type (p : presence) : Z := default 0 (userPresenceType p).

Definition is_online (p : presence) : bool :=
  bool_decide (presence_type p ≠ 0).

(** [presence.get("lastLocation") or "Tidak bermain"]. *)
Definition last_location (p : presence) : string :=
  match lastLocation p with
  | Some s => if decide (s = "") then "Tidak bermain" else s
  | None => "Tidak bermain"
  end.

(** [username_map.get(uid, str(uid))]. *)
Definition user_name (username_map : gmap Z string) (uid : Z) : string :=
  default (pretty uid) (username_map !! uid).

(** One entry of [display_lines]:
    [(name, format_timedelta(online_dur), last_location, format_timedelta(game_dur))]. *)
Record display_line := DisplayLine {
  dl_name : string;
  dl_online : string;
  dl_location : string;
  dl_game : string
}.

(** The variables the loop over [presence_map.items()] updates. *)
Record loop_state := LoopState {
  ls_online_since : gmap Z Z;
  ls_game_since : gmap Z Z;
  ls_current_online_set : gset Z;
  ls_display_lines : list display_line;
  ls_events : list event
}.

(** Body of the loop (lines 197-234) for one item, [now] being the value
    [now_wib()] returns in this iteration. *)
Definition track_one (last : gset Z) (username_map : gmap Z string)
    (now : Z) (uid : Z) (p : presence) (s : loop_state) : loop_state :=
  let user_presence_type := presence_type p in
  let name := user_name username_map uid in
  if is_online p then
    let os :=
      match ls_online_since s !! uid with
      | None => <[uid := now]> (ls_online_since s)
      | Some _ => ls_online_since s
      end in
    let gs :=
      if decide (user_presence_type = 2) then
        match ls_game_since s !! uid with
        | None => <[uid := now]> (ls_game_since s)
        | Some _ => ls_game_since s
        end
      else delete uid (ls_game_since s) in
    let online_dur := now - default now (os !! uid) in
    let game_dur :=
      match gs !! uid with
      | Some g => now - g
      | None => 0
      end in
    LoopState os gs ({[uid]} ∪ ls_current_online_set s)
      (ls_display_lines s ++
         [DisplayLine name (format_timedelta online_dur) (last_location p)
            (format_timedelta game_dur)])
      (ls_events s)
  else if decide (uid ∈ last) then
    let was_online_since := ls_online_since s !! uid in
    let was_game_since := ls_game_since s !! uid in
    let total_online :=
      match was_online_since with
      | Some o => now - o
      | None => 0
      end in
    let total_game :=
      match was_game_since with
      | Some g => now - g
      | None => 0
      end in
    LoopState (delete uid (ls_online_since s)) (delete uid (ls_game_since s))
      (ls_current_online_set s) (ls_display_lines s)
      (ls_events s ++ [OfflineEvent uid name now total_online total_game])
  else s.

(** The loop [for uid, presence in presence_map.items()]; the [i]-th call of
    [now_wib()] in the tick returns [clock i]. *)
Fixpoint track_loop (last : gset Z) (username_map : gmap Z string)
    (clock : nat → Z) (i : nat) (items : list (Z * presence))
    (s : loop_state) : loop_state :=
  match items with
  | [] => s
  | (uid, p) :: rest =>
      track_loop last username_map clock (S i) rest
        (track_one last username_map (clock i) uid p s)
  end.

(** Lines 236-244: one notification per member of
    [new_online = current_online_set - last_online_set], the [j]-th of them
    stamped with the clock reading number [i + j].  Python iterates a set
    in no particular order; here the order is that of [elements]. *)
Definition online_events (username_map : gmap Z string) (clock : nat → Z)
    (i : nat) (new_online : gset Z) : list event :=
  imap (λ j uid, OnlineEvent uid (user_name username_map uid)
                   (clock (i + j)%nat))
       (elements new_online).

End Tracker.

(** * Status renderer (lines 246-275) *)
Module Renderer.

Import Tracker.

(** The string literals below are those of the source, its escape
    sequences read as the characters they denote. *)

(** The newline escape of the string literals. *)
Definition nl : string := String (ascii_of_nat 10) "".

(** [list.sort(key=...)] is a stable sort on the keys, compared as strings:
    an element is placed in front of the first element whose key is not
    smaller, so elements with equal keys keep their order. *)
Fixpoint insert_by {A} (key : A → string) (x : A) (l : list A) : list A :=
  match l with
  | [] => [x]
  | y :: l' =>
      if String.leb (key x) (key y) then x :: y :: l'
      else y :: insert_by key x l'
  end.

Definition sort_by {A} (key : A → string) (l : list A) : list A :=
  foldr (insert_by key) [] l.

(** [s * n] on strings. *)
Fixpoint str_repeat (s : string) (n : nat) : string :=
  match n with
  | O => ""
  | S n' => s +:+ str_repeat s n'
  end.

(** The format specification [:<20]: left-aligned in a field of the given
    width, padded with spaces. *)
Definition ljust (s : string) (width : nat) : string :=
  s +:+ str_repeat " " (width - String.length s).

(** One entry of [friends_text] (line 250). *)
Definition friend_entry (idx : nat) (x : display_line) : string :=
  pretty idx +:+ ". **" +:+ dl_name x +:+ "**" +:+ nl
  +:+ "   🕒 Online: " +:+ dl_online x +:+ nl
  +:+ "   🎯 Game: " +:+ dl_location x +:+ nl
  +:+ "   ⌛ Waktu Bermain: " +:+ dl_game x +:+ nl +:+ nl.

(** Lines 248-252, over the sorted [display_lines]; [enumerate] starts at 1. *)
Definition friends_text (sorted_lines : list display_line) : string :=
  match sorted_lines with
  | [] => "_Tidak ada teman online_" +:+ nl
  | _ => foldr String.append "" (imap (λ i x, friend_entry (S i) x) sorted_lines)
  end.

(** [int(uptime.total_seconds())]. *)
Definition elapsed_seconds (start now : Z) : Z := (now - start) ÷ 1000000.

(** [int(min(max(elapsed / RESTART_INTERVAL, 0.0), 1.0) * BAR_LENGTH)],
    evaluated in exact arithmetic. *)
Definition filled (elapsed : Z) : Z :=
  (Z.min (Z.max elapsed 0) RESTART_INTERVAL * BAR_LENGTH) / RESTART_INTERVAL.

(** The two methods of the standard library the renderer calls and the
    source does not define: [datetime.strftime("%H:%M:%S %d/%m/%Y WIB")] on a
    time stamp, and [str.lower()], which lower-cases every cased character
    of a string, not only the ASCII letters.  Strings are UTF-8 texts,
    whose order by bytes is Python's order by code points. *)
Record pylib := PyLib {
  strftime : Z → string;
  str_lower : string → string
}.

Section StatusBox.

Variable py : pylib.

(** [display_lines.sort(key=lambda x: x[0].lower())]. *)
Definition sort_key (x : display_line) : string := str_lower py (dl_name x).

Definition sort_display_lines (display_lines : list display_line)
  : list display_line :=
  sort_by sort_key display_lines.

(** Lines 254-274 up to the title of the list: the box around uptime,
    number of entries, time of the update, time left and progress bar. *)
Definition status_header (entries : nat) (start now : Z) : string :=
  let uptime := now - start in
  let uptime_s := format_timedelta uptime in
  let elapsed := elapsed_seconds start now in
  let remaining := Z.max (RESTART_INTERVAL - elapsed) 0 in
  let remaining_s := format_timedelta (remaining * 1000000) in
  let filled := filled elapsed in
  let bar := str_repeat "█" (Z.to_nat filled)
             +:+ str_repeat "░" (Z.to_nat (BAR_LENGTH - filled)) in
  let last_update := strftime py now in
  "╔════════════ 📊 STATUS BOT ════════════╗" +:+ nl
  +:+ "║ ⏳ Uptime        : " +:+ ljust uptime_s 20 +:+ "║" +:+ nl
  +:+ "║ 👥 Teman Online  : " +:+ ljust (pretty entries) 20 +:+ "║" +:+ nl
  +:+ "║ 🕒 Update Terakhir: " +:+ ljust last_update 20 +:+ "║" +:+ nl
  +:+ "║ 🔄 Restart Dalam : " +:+ ljust remaining_s 20 +:+ "║" +:+ nl
  +:+ "║ [" +:+ bar +:+ "]                 ║" +:+ nl
  +:+ "╚═══════════════════════════════════════╝" +:+ nl +:+ nl
  +:+ "🎮 **DAFTAR TEMAN ONLINE**" +:+ nl.

(** Lines 254-275: the header, then [friends_text]. *)
Definition status_box (sorted_lines : list display_line) (start now : Z)
  : string :=
  status_header (length sorted_lines) start now +:+ friends_text sorted_lines.

(** The renderer: sort the tick's records, then lay out the box. *)
Definition render (display_lines : list display_line) (start now : Z)
  : string :=
  status_box (sort_display_lines display_lines) start now.

End StatusBox.

(** Keys in ascending order, compared as Python compares strings. *)
Definition key_le {A} (key : A → string) (a b : A) : Prop :=
  String.leb (key a) (key b) = true.

End Renderer.

(** * Publisher (lines 277-299) *)
Module Publisher.

(** How a call on the status channel ends: normally, or by raising
    [discord.NotFound], [discord.Forbidden] or another exception. *)
Inductive call_outcome := CallOk | NotFound | Forbidden | OtherError.

(** What the channel and the file system do in one tick: the outcome of
    [fetch_message], of [msg.edit], the id of the message [send] creates
    ([None] when [send] raises), and how writing [state.json] ends. *)
Record pub_env := PubEnv {
  fetch_outcome : call_outcome;
  edit_outcome : call_outcome;
  send_outcome : option Z;
  write : write_outcome
}.

(** The calls the publisher makes, in order. *)
Inductive action :=
  | FetchMessage (id : Z)
  | EditMessage (id : Z) (content : string)
  | SendMessage (content : string)
  | WriteState (id : option Z)
  | LogWarning.

(** Python truth value of [status_message_id]. *)
Definition has_handle (h : option Z) : option Z :=
  match h with
  | Some id => if decide (id = 0) then None else Some id
  | None => None
  end.

(** Lines 281-282: the first call that raises ends the [try] block. *)
Definition try_edit (e : pub_env) (id : Z) (content : string)
  : call_outcome * list action :=
  match fetch_outcome e with
  | CallOk => (edit_outcome e, [FetchMessage id; EditMessage id content])
  | o => (o, [FetchMessage id])
  end.

(** Lines 294-297, and the outer handler when the write raises: the file
    then keeps its content if it could not be opened, and is no JSON text
    any more, with no handle to read from it, if it was opened. *)
Definition persist (e : pub_env) (handle file : option Z) (acts : list action)
  : option Z * option Z * list action :=
  match write e with
  | Written => (handle, handle, acts ++ [WriteState handle])
  | OpenFails => (handle, file, acts ++ [WriteState handle; LogWarning])
  | DumpFails => (handle, None, acts ++ [WriteState handle; LogWarning])
  end.

(** Lines 278-299: the new [status_message_id], the new content of
    [state.json] and the calls made. *)
Definition publish (e : pub_env) (content : string) (handle file : option Z)
  : option Z * option Z * list action :=
  match has_handle handle with
  | Some id =>
      let '(o, acts) := try_edit e id content in
      match o with
      | CallOk => persist e handle file acts
      | NotFound =>
          match send_outcome e with
          | Some sent_id =>
              persist e (Some sent_id) file (acts ++ [SendMessage content])
          | None => (handle, file, acts ++ [SendMessage content; LogWarning])
          end
      | Forbidden | OtherError => persist e handle file (acts ++ [LogWarning])
      end
  | None =>
      match send_outcome e with
      | Some sent_id => persist e (Some sent_id) file [SendMessage content]
      | None => (handle, file, [SendMessage content; LogWarning])
      end
  end.

Definition is_send (a : action) : bool :=
  match a with SendMessage _ => true | _ => false end.

Definition is_write (a : action) : bool :=
  match a with WriteState _ => true | _ => false end.

(** Number of messages the publisher asks the channel to create. *)
Definition sends (acts : list action) : nat :=
  length (List.filter is_send acts).

(** Number of times the publisher rewrites [state.json]. *)
Definition writes (acts : list action) : nat :=
  length (List.filter is_write acts).

(** The exception that ends lines 281-282, if any. *)
Definition first_failure (e : pub_env) : call_outcome :=
  match fetch_outcome e with
  | CallOk => edit_outcome e
  | o => o
  end.

End Publisher.

(** * The polling tick (lines 167-306) *)
Module Tick.

Import Tracker Renderer Publisher.

(** What one run of [update_status_message] meets outside the bot: whether
    the client is closed, whether both channels resolve, the presence
    objects bound to [presences] and the names bound to [username_map]
    (lines 187 and 194), the successive readings of the wall clock
    ([now_wib()]), and the behaviour of the status channel. *)
Record tick_env := TickEnv {
  bot_closed : bool;
  channels_found : bool;
  presences : list presence;
  username_map : gmap Z string;
  clock : nat → Z;
  pub : pub_env
}.

Record tick_result := TickResult {
  tr_state : bot_state;
  tr_events : list event;
  tr_actions : list action
}.

Definition init_loop (st : bot_state) : loop_state :=
  LoopState (online_since st) (game_since st) ∅ [] [].

(** The loop variables after the loop over the snapshot of this tick. *)
Definition tracked (env : tick_env) (st : bot_state) : loop_state :=
  track_loop (last_online_set st) (username_map env) (clock env) 0
    (presence_map (presences env)) (init_loop st).

Section UpdateStatusMessage.

Variable py : Renderer.pylib.

Definition update_status_message (env : tick_env) (st : bot_state)
  : tick_result :=
  if bot_closed env then TickResult st [] []
  else if negb (channels_found env) then TickResult st [] [LogWarning]
  else
    let items := presence_map (presences env) in
    let s := tracked env st in
    let current_online_set := ls_current_online_set s in
    let new_online := current_online_set ∖ last_online_set st in
    let notifs :=
      ls_events s
      ++ online_events (username_map env) (clock env) (length items)
           new_online in
    let now := clock env (length items + size new_online)%nat in
    let box := render py (ls_display_lines s) (START_TIME st) now in
    let '(handle, file, acts) :=
      publish (pub env) ("```" +:+ box +:+ "```")
        (status_message_id st) (state_file st) in
    TickResult
      (BotState (ls_online_since s) (ls_game_since s) current_online_set
         handle file (START_TIME st))
      notifs acts.

(** Successive ticks of the polling task; the notifications of all of
    them, in order. *)
Fixpoint run (envs : list tick_env) (st : bot_state)
  : bot_state * list event :=
  match envs with
  | [] => (st, [])
  | env :: rest =>
      let r := update_status_message env st in
      let '(st', evs) := run rest (tr_state r) in
      (st', tr_events r ++ evs)
  end.

End UpdateStatusMessage.

(** ** Vocabulary of the specification, read off the tests of the loop *)

Inductive presence_kind := Offline | OnlineIdle | OnlineActive.

(** [user_presence_type != 0] is online, [== 2] is in a game. *)
Definition kind_of (p : presence) : presence_kind :=
  if decide (presence_type p = 0) then Offline
  else if decide (presence_type p = 2) then OnlineActive
  else OnlineIdle.

(** [presence_map.get(uid)]. *)
Fixpoint dict_get {V} (k : Z) (d : list (Z * V)) : option V :=
  match d with
  | [] => None
  | (k', v) :: d' => if decide (k = k') then Some v else dict_get k d'
  end.

(** The snapshot of an identity in a tick, if the response has one. *)
Definition snapshot (env : tick_env) (uid : Z) : option presence :=
  dict_get uid (presence_map (presences env)).

Definition snapshot_kind (env : tick_env) (uid : Z) : option presence_kind :=
  kind_of <$> snapshot env uid.

(** The tick gets as far as the snapshot. *)
Definition runs (env : tick_env) : Prop :=
  bot_closed env = false ∧ channels_found env = true.

Definition event_uid (e : event) : Z :=
  match e with
  | OfflineEvent uid _ _ _ _ => uid
  | OnlineEvent uid _ _ => uid
  end.

Definition is_offline_event (uid : Z) (e : event) : bool :=
  match e with
  | OfflineEvent u _ _ _ _ => bool_decide (u = uid)
  | OnlineEvent _ _ _ => false
  end.

Definition is_online_event (uid : Z) (e : event) : bool :=
  match e with
  | OnlineEvent u _ _ => bool_decide (u = uid)
  | OfflineEvent _ _ _ _ _ => false
  end.

Definition offline_events (uid : Z) (evs : list event) : list event :=
  List.filter (is_offline_event uid) evs.

Definition online_event_count (uid : Z) (evs : list event) : nat :=
  length (List.filter (is_online_event uid) evs).

(** [now - since] when the timer exists, zero otherwise. *)
Definition duration_since (now : Z) (since : option Z) : Z :=
  match since with
  | Some t => now - t
  | None => 0
  end.

(** What the loop holds about one identity: its two timers, whether it is
    in [current_online_set], and the offline notifications issued for it. *)
Definition view (uid : Z) (s : loop_state)
  : option Z * option Z * bool * list event :=
  (ls_online_since s !! uid, ls_game_since s !! uid,
   bool_decide (uid ∈ ls_current_online_set s),
   offline_events uid (ls_events s)).

(** The loop body at the item of [uid], read on the view of [uid]. *)
Definition step_view (last : gset Z) (username_map : gmap Z string)
    (now uid : Z) (p : presence)
    (v : option Z * option Z * bool * list event)
  : option Z * option Z * bool * list event :=
  let '(o, g, c, evs) := v in
  if is_online p then
    (Some (default now o),
     if decide (presence_type p = 2) then Some (default now g) else None,
     true, evs)
  else if decide (uid ∈ last) then
    (None, None, c,
     evs ++ [OfflineEvent uid (user_name username_map uid) now
               (duration_since now o) (duration_since now g)])
  else (o, g, c, evs).

(** The identity has a snapshot in this tick and its kind is not Offline. *)
Definition appears_online (env : tick_env) (uid : Z) : bool :=
  match snapshot env uid with
  | Some p => is_online p
  | None => false
  end.

(** [currentOnlineSet] of the specification: the identities whose
    snapshot in this tick has a kind other than Offline. *)
Definition snapshot_online_set (env : tick_env) : gset Z :=
  list_to_set
    (List.filter (λ kp, is_online kp.2) (presence_map (presences env))).*1.

(** The same tick met by a status channel that behaves as [pe]. *)
Definition with_pub (env : tick_env) (pe : pub_env) : tick_env :=
  TickEnv (bot_closed env) (channels_found env) (presences env)
    (username_map env) (clock env) pe.

(** The loop issues offline notifications only. *)
Definition is_offline_notification (e : event) : bool :=
  is_offline_event (event_uid e) e.

(** The claim on offline snapshots with the existence of a SessionState
    entry as its test, over the states the bot can reach. *)
Definition offline_rule_by_session_entry : Prop :=
  ∀ (py : Renderer.pylib) (envs : list tick_env) (env : tick_env)
    (uid : Z) (file : option Z) (start : Z),
    let st := (run py envs (initial_state file start)).1 in
    let r := update_status_message py env st in
    runs env → snapshot_kind env uid = Some Offline →
    (is_Some (online_since st !! uid) →
       (∃ name now,
          offline_events uid (tr_events r)
          = [OfflineEvent uid name now
               (duration_since now (online_since st !! uid))
               (duration_since now (game_since st !! uid))])
       ∧ online_since (tr_state r) !! uid = None
       ∧ game_since (tr_state r) !! uid = None)
    ∧ (online_since st !! uid = None →
       offline_events uid (tr_events r) = []
       ∧ online_since (tr_state r) !! uid = online_since st !! uid
       ∧ game_since (tr_state r) !! uid = game_since st !! uid).

(** The kind observed last for an identity over successive ticks, [acc]
    being the kind observed before them: a tick that returns early, or
    whose response has nothing about the identity, observes nothing. *)
Fixpoint last_kind (envs : list tick_env) (uid : Z)
    (acc : option presence_kind) : option presence_kind :=
  match envs with
  | [] => acc
  | env :: rest =>
      last_kind rest uid
        (if bot_closed env then acc
         else if negb (channels_found env) then acc
         else match snapshot_kind env uid with
              | Some k => Some k
              | None => acc
              end)
  end.

(** The claim that [activeSince] mirrors the kind observed last, over the
    states the bot can reach. *)
Definition active_since_mirrors_last_kind : Prop :=
  ∀ (py : Renderer.pylib) (envs : list tick_env) (uid : Z)
    (file : option Z) (start : Z),
    let st := (run py envs (initial_state file start)).1 in
    is_Some (game_since st !! uid) ↔ last_kind envs uid None = Some OnlineActive.

(** The states the bot reaches when the wall clock does not run backwards
    from one tick to the next: every reading of the ticks so far is at
    most [t]. *)
Inductive reachable (py : Renderer.pylib) : Z → bot_state → Prop :=
  | reachable_initial (file : option Z) (start t : Z) :
      reachable py t (initial_state file start)
  | reachable_tick (t t' : Z) (env : tick_env) (st : bot_state) :
      reachable py t st →
      (∀ i, t ≤ clock env i ≤ t') →
      reachable py t'
        (tr_state (update_status_message py env st)).

(** What makes the durations of an offline notification well ordered: a
    game timer comes with an online timer that is not later, and no timer
    is later than [t]. *)
Definition timers_ordered (t : Z) (st : bot_state) : Prop :=
  ∀ uid,
    match online_since st !! uid, game_since st !! uid with
    | Some o, Some g => o ≤ g ≤ t
    | Some o, None => o ≤ t
    | None, Some g => False
    | None, None => True
    end.

(** The claim on the durations of offline notifications as the
    specification states it, with no condition on the clock: over the
    states the bot can reach, the durations of every offline notification
    are ordered. *)
Definition offline_durations_ordered : Prop :=
  ∀ (py : Renderer.pylib) (envs : list tick_env) (env : tick_env)
    (file : option Z) (start : Z) (uid : Z) (name : string)
    (now total_online total_game : Z),
    let st := (run py envs (initial_state file start)).1 in
    OfflineEvent uid name now total_online total_game
      ∈ tr_events (update_status_message py env st) →
    0 ≤ total_game ≤ total_online.

(** The timers [o] of [online_since] and [g] of [game_since] for which
    the durations [now - g] and [now - o] of lines 222-226 (zero without
    the timer) are ordered. *)
Definition timers_ordered_at (now : Z) (o g : option Z) : Prop :=
  match o, g with
  | Some o, Some g => o ≤ g ≤ now
  | Some o, None => o ≤ now
  | None, Some g => g = now
  | None, None => True
  end.

(** A tick at which the guard of line 219 leaves a game timer behind: the
    tick runs and reports the identity Offline while the state has a
    [game_since] timer for it and [last_online_set] does not have it. *)
Definition stale_offline (uid : Z) (env : tick_env) (st : bot_state)
  : Prop :=
  runs env ∧ snapshot_kind env uid = Some Offline
  ∧ (uid ∉ last_online_set st) ∧ is_Some (game_since st !! uid).

(** No tick of the run from [st] is such a tick. *)
Fixpoint no_stale_offline (py : Renderer.pylib) (uid : Z)
    (envs : list tick_env) (st : bot_state) : Prop :=
  match envs with
  | [] => True
  | env :: rest =>
      ¬ stale_offline uid env st
      ∧ no_stale_offline py uid rest (tr_state (update_status_message py env st))
  end.

(** The response of the tick, when the tick gets that far, has a snapshot
    of the identity. *)
Definition reported (uid : Z) (env : tick_env) : Prop :=
  runs env → is_Some (snapshot env uid).

(** [game_since] and [last_online_set] agree with the kind observed last. *)
Definition mirrors (uid : Z) (acc : option presence_kind) (st : bot_state)
  : Prop :=
  (is_Some (game_since st !! uid) ↔ acc = Some OnlineActive)
  ∧ (uid ∈ last_online_set st
     ↔ acc = Some OnlineIdle ∨ acc = Some OnlineActive).

(** The clock reading taken for the status box (line 255). *)
Definition render_time (env : tick_env) (st : bot_state) : Z :=
  clock env
    (length (presence_map (presences env))
     + size (ls_current_online_set (tracked env st) ∖ last_online_set st))%nat.

(** The status box a tick builds (line 266). *)
Definition status_text (py : Renderer.pylib) (env : tick_env)
    (st : bot_state) : string :=
  render py (ls_display_lines (tracked env st)) (START_TIME st)
    (render_time env st).

(** Every id of [last_online_set], and every id with a game timer, has an
    online timer. *)
Definition timers_cover (st : bot_state) : Prop :=
  ∀ uid,
    (uid ∈ last_online_set st → is_Some (online_since st !! uid))
    ∧ (is_Some (game_since st !! uid) → is_Some (online_since st !! uid)).

End Tick.

(** * Restart coordinator (lines 309-328) *)
Module Restart.

(** The calls a check can make, by their lines: the warning of line 319,
    the notice of line 323, the pause of line 324, [os.execv] of line 326
    and the handler of line 328.  A send stands for the call, whether it
    returns or raises. *)
Inductive restart_action :=
  | SendWarning
  | SendRestartNotice
  | Sleep
  | Execv
  | LogException.

(** [ch = bot.get_channel(NOTIF_CHANNEL_ID)], then [if ch: await
    ch.send(...)]: the call made, if any, and whether the [try] block goes
    on after it, which it does not when [send] raises. *)
Definition notify (channel_found send_ok : bool) (a : restart_action)
  : list restart_action * bool :=
  if channel_found then ([a], send_ok) else ([], true).

(** One run of [auto_restart_check]: [now] is the clock reading,
    [channel_found] tells whether [bot.get_channel] returns a channel,
    [send_ok] whether [ch.send] returns.  The module never imports [sys],
    so evaluating [sys.executable] for the call of line 326 raises
    [NameError]: the handler of line 328 logs it and [os.execv] is not
    called. *)
Definition auto_restart_check (start now : Z) (channel_found send_ok : bool)
  : list restart_action :=
  let elapsed := Renderer.elapsed_seconds start now in
  let '(warned, go) :=
    if decide (RESTART_INTERVAL - elapsed ≤ 300
               ∧ 295 < RESTART_INTERVAL - elapsed)
    then notify channel_found send_ok SendWarning
    else ([], true) in
  if negb go then warned ++ [LogException]
  else if decide (RESTART_INTERVAL ≤ elapsed)
  then
    let '(noticed, go') := notify channel_found send_ok SendRestartNotice in
    if go' then warned ++ noticed ++ [Sleep; LogException]
    else warned ++ noticed ++ [LogException]
  else warned.

(** The task loop: one check per clock reading, in order. *)
Definition checks (start : Z) (nows : list Z) (channel_found send_ok : bool)
  : list restart_action :=
  concat
    ((λ now, auto_restart_check start now channel_found send_ok) <$> nows).

Definition is_warning (a : restart_action) : bool :=
  match a with SendWarning => true | _ => false end.

Definition warnings (acts : list restart_action) : nat :=
  length (List.filter is_warning acts).

(** The check is made in the window in which line 316 holds. *)
Definition in_warning_window (start now : Z) : Prop :=
  RESTART_INTERVAL - 300 ≤ Renderer.elapsed_seconds start now
                         < RESTART_INTERVAL - 295.

Definition is_notice (a : restart_action) : bool :=
  match a with SendRestartNotice => true | _ => false end.

Definition notices (acts : list restart_action) : nat :=
  length (List.filter is_notice acts).

(** The check is made when line 320 holds. *)
Definition restart_due (start now : Z) : Prop :=
  RESTART_INTERVAL ≤ Renderer.elapsed_seconds start now.

#[global] Instance restart_due_dec (start now : Z)
  : Decision (restart_due start now) :=
  Z_le_dec _ _.

End Restart.

(** * Concrete ticks *)
Module Examples.

Import Tracker Publisher Tick.

(** A stand-in for [str.lower]: it lowers the ASCII letters and leaves every
    other byte as it is. *)
Definition ascii_lower_char (c : ascii) : ascii :=
  let n := nat_of_ascii c in
  if ((65 <=? n)%nat && (n <=? 90)%nat)%bool then ascii_of_nat (n + 32) else c.

Fixpoint ascii_lower (s : string) : string :=
  match s with
  | EmptyString => EmptyString
  | String c s' => String (ascii_lower_char c) (ascii_lower s')
  end.

(** Stand-ins for the library: a time stamp is printed as its number of
    microseconds, and names are lowered by [ascii_lower]. *)
Definition plain_lib : Renderer.pylib := Renderer.PyLib pretty ascii_lower.

Definition seconds (n : Z) : Z := n * 1000000.

(** A status channel on which every call succeeds. *)
Definition channel_ok : pub_env := PubEnv CallOk CallOk (Some 77) Written.

(** A tick that runs at time [t] on the presences [ps]. *)
Definition tick_at (t : Z) (ps : list presence) : tick_env :=
  TickEnv false true ps ∅ (λ _, t) channel_ok.

Definition alice : Z := 1.

Definition alice_in_game : presence := Presence 1 (Some 2) (Some "Level1").
Definition alice_idle : presence := Presence 1 (Some 1) None.
Definition alice_offline : presence := Presence 1 (Some 0) None.
Definition bob_offline : presence := Presence 2 (Some 0) None.

(** Alice is in a game, then missing from the response, then offline. *)
Definition tick_in_game : tick_env :=
  tick_at (seconds 100) [alice_in_game; bob_offline].
Definition tick_missing : tick_env := tick_at (seconds 130) [bob_offline].
Definition tick_offline : tick_env :=
  tick_at (seconds 160) [alice_offline; bob_offline].
Definition tick_idle : tick_env :=
  tick_at (seconds 130) [alice_idle; bob_offline].

Definition fresh : bot_state := initial_state None 0.

(** The state after the first tick. *)
Definition after_in_game : bot_state :=
  tr_state (update_status_message plain_lib tick_in_game fresh).

(** A status channel on which the message to edit is gone. *)
Definition channel_message_gone : pub_env :=
  PubEnv NotFound CallOk (Some 78) Written.

(** The clock readings of five successive restart checks, one second
    apart, the first 300 seconds before the restart is due. *)
Definition warning_window : list Z :=
  seconds <$> [42900; 42901; 42902; 42903; 42904].

Definition line_of (name : string) : display_line :=
  DisplayLine name "5s" "Tidak bermain" "0s".

(** A status channel on which every call fails, with a state file that
    cannot be opened for writing. *)
Definition channel_down : pub_env :=
  PubEnv OtherError OtherError None OpenFails.

End Examples.

(** * Friends list (lines 112-133) *)
Module Friends.

(** One page of the friends API: HTTP status, the ids of the [data] items
    and [nextPageCursor]. *)
Record friends_page := FriendsPage {
  fp_status : Z;
  fp_ids : list Z;
  fp_next : option string
}.

(** The friends API: the answer to the [k]-th GET, given the [cursor]
    parameter sent with it ([None] when the parameter is left out). *)
Definition friends_api := nat → option string → friends_page.

(** Python truth value of a cursor: [None] and the empty string are
    false. *)
Definition truthy (cursor : option string) : option string :=
  match cursor with
  | Some c => if decide (c = "") then None else Some c
  | None => None
  end.

(** The [while True] loop of [get_friends_list], the next GET being number
    [k]: a status other than 200 returns the empty list, a page without
    cursor ends the loop.  The loop has no bound of its own; [fuel] bounds
    the number of GETs, and [None] means that the bound was reached. *)
Fixpoint friends_loop (fuel : nat) (api : friends_api) (k : nat)
    (cursor : option string) (friends : list Z) : option (list Z) :=
  match fuel with
  | O => None
  | S fuel' =>
      let resp := api k (truthy cursor) in
      if decide (fp_status resp ≠ 200) then Some []
      else
        let friends' := friends ++ fp_ids resp in
        match truthy (fp_next resp) with
        | Some c => friends_loop fuel' api (S k) (Some c) friends'
        | None => Some friends'
        end
  end.

(** [get_friends_list()]. *)
Definition get_friends_list (fuel : nat) (api : friends_api)
  : option (list Z) :=
  friends_loop fuel api 0 None [].

(** The pages the loop walks through from GET number [k] on, as long as
    each one answers 200 and names a next cursor; at most [n] of them. *)
Fixpoint walk (n : nat) (api : friends_api) (k : nat) (cursor : option string)
  : list friends_page :=
  match n with
  | O => []
  | S n' =>
      let resp := api k (truthy cursor) in
      resp :: (if decide (fp_status resp ≠ 200) then []
               else match truthy (fp_next resp) with
                    | Some c => walk n' api (S k) (Some c)
                    | None => []
                    end)
  end.

End Friends.

(** * User names (lines 152-164) *)
Module Usernames.

(** One item of the users API: [id], [name] and [displayName]. *)
Record user := User {
  u_id : Z;
  u_name : option string;
  u_displayName : option string
}.

Record users_response := UsersResponse {
  ur_status : Z;
  ur_data : list user
}.

(** The users API: the answer to the [k]-th POST, given its payload. *)
Definition users_api := nat → list Z → users_response.

(** Python [a or b] for an optional string [a]. *)
Definition or_else (a : option string) (b : string) : string :=
  match a with
  | Some s => if decide (s = "") then b else s
  | None => b
  end.

(** [u.get("name") or u.get("displayName") or str(u.get("id"))]. *)
Definition label (u : user) : string :=
  or_else (u_name u) (or_else (u_displayName u) (pretty (u_id u))).

(** The inner loop [for u in data.get("data", [])]. *)
Definition add_users (res : gmap Z string) (data : list user)
  : gmap Z string :=
  foldl (λ r u, <[u_id u := label u]> r) res data.

(** Body of the loop of [get_usernames] (lines 158-163) run over a list
    of chunks, the first of them being POST number [k]. *)
Fixpoint usernames_loop (api : users_api) (k : nat) (chunks : list (list Z))
    (res : gmap Z string) : gmap Z string :=
  match chunks with
  | [] => res
  | chunk :: rest =>
      let resp := api k chunk in
      if decide (ur_status resp ≠ 200)
      then usernames_loop api (S k) rest res
      else usernames_loop api (S k) rest (add_users res (ur_data resp))
  end.

(** [get_usernames(user_ids)]: like [get_presences] it applies [await] to
    what [chunked] returns, and it has no test for an empty argument. *)
Definition get_usernames (api : users_api) (user_ids : list Z)
  : result (gmap Z string) :=
  match Fetcher.await (Fetcher.call_chunked user_ids 100) with
  | Raise e => Raise e
  | Ok chunks => Ok (usernames_loop api 0 chunks ∅)
  end.

(** Line 194: [await get_usernames(ids_to_label) if ids_to_label else {}]. *)
Definition username_map_of (api : users_api) (ids_to_label : list Z)
  : result (gmap Z string) :=
  match ids_to_label with
  | [] => Ok ∅
  | _ => get_usernames api ids_to_label
  end.

End Usernames.

(** * Allow-list commands and the monitored set (lines 179-185, 331-350) *)
Module Commands.

(** The list [manual_tracked], and [players_file], the list the start of
    the process reads from [players.json] (lines 56-60): the empty list
    when the file is no JSON text. *)
Record tracked := Tracked {
  manual_tracked : list Z;
  players_file : list Z
}.

(** What the author of a command gets back: one of the four messages, or
    nothing when the command raises (missing permission, failed write). *)
Inductive reply :=
  | AlreadyTracked
  | Added (user_id : Z)
  | Removed (user_id : Z)
  | NotTracked
  | Raised.

(** [cmd_add]: [administrator] is the permission check of the decorator,
    [write] tells how writing [players.json] ends. *)
Definition cmd_add (administrator : bool) (write : write_outcome)
    (user_id : Z) (s : tracked) : tracked * reply :=
  if negb administrator then (s, Raised)
  else if decide (user_id ∈ manual_tracked s) then (s, AlreadyTracked)
  else
    let l := manual_tracked s ++ [user_id] in
    (Tracked l (file_after write l (players_file s) []),
     match write with Written => Added user_id | _ => Raised end).

(** [list.remove(x)]: the list without the first occurrence of [x], or
    [None] for [ValueError]. *)
Fixpoint py_remove (x : Z) (l : list Z) : option (list Z) :=
  match l with
  | [] => None
  | y :: l' =>
      if decide (x = y) then Some l'
      else match py_remove x l' with
           | Some r => Some (y :: r)
           | None => None
           end
  end.

(** [cmd_hapus]. *)
Definition cmd_hapus (administrator : bool) (write : write_outcome)
    (user_id : Z) (s : tracked) : tracked * reply :=
  if negb administrator then (s, Raised)
  else
    match py_remove user_id (manual_tracked s) with
    | None => (s, NotTracked)
    | Some l =>
        (Tracked l (file_after write l (players_file s) []),
         match write with Written => Removed user_id | _ => Raised end)
    end.

(** Lines 181-185: friends and manually tracked ids, without the id of the
    account itself; [own] is [None] when [int(ROBLOX_USER_ID)] raises. *)
Definition monitored (friends manual : list Z) (own : option Z) : gset Z :=
  let m : gset Z := list_to_set friends ∪ list_to_set manual in
  match own with
  | Some o => m ∖ {[o]}
  | None => m
  end.

End Commands.

(** * What a tick fetches (lines 179-194) *)
Module Acquire.

Import Fetcher Tracker Friends Usernames Commands.

(** Lines 180-194: the friends list, the monitored set, the presences of
    [list(monitored)] and the names of the ids that have a presence
    object.  [None] means that the friends loop did not end within [fuel]
    GETs; the order of [list(monitored)] is that of [elements]. *)
Definition acquire (fuel : nat) (fapi : friends_api) (up : upstream)
    (uapi : users_api) (manual : list Z) (own : option Z)
  : option (result (list presence * gmap Z string)) :=
  match get_friends_list fuel fapi with
  | None => None
  | Some friends =>
      Some
        (match get_presences up (elements (monitored friends manual own)) with
         | Raise e => Raise e
         | Ok presences =>
             let ids_to_label := (presence_map presences).*1 in
             match username_map_of uapi ids_to_label with
             | Raise e => Raise e
             | Ok username_map => Ok (presences, username_map)
             end
         end)
  end.

End Acquire.

(** * The publisher over successive ticks *)
Module PublisherRun.

Import Publisher.

(** [publish] tick after tick, each tick with its channel behaviour and
    its text; the calls of all ticks, in order. *)
Fixpoint publish_run (steps : list (pub_env * string))
    (handle file : option Z) : option Z * option Z * list action :=
  match steps with
  | [] => (handle, file, [])
  | (e, content) :: rest =>
      let '(handle', file', acts) := publish e content handle file in
      let '(handle'', file'', acts') := publish_run rest handle' file' in
      (handle'', file'', acts ++ acts')
  end.

(** A tick on which fetch and edit succeed and a send, if any, yields a
    usable message id. *)
Definition healthy (e : pub_env) : Prop :=
  fetch_outcome e = CallOk ∧ edit_outcome e = CallOk
  ∧ ∃ id, send_outcome e = Some id ∧ id ≠ 0.

End PublisherRun.

(** * Properties of the batching fetcher *)
Section FetcherFacts.

Import Fetcher.

Lemma range_step_covers (stop step : nat) :
  (0 < step)%nat → (stop ≤ (stop + step - 1) / step * step)%nat.
Proof.
  intros Hstep.
  pose proof (Nat.div_mod_eq (stop + step - 1) step) as Hdm.
  pose proof (Nat.mod_upper_bound (stop + step - 1) step) as Hmod.
  nia.
Qed.

Lemma concat_slices {A} (l : list A) (n m : nat) :
  concat ((λ i, slice l i (i + n)) <$> ((λ k, k * n)%nat <$> seq 0 m))
  = take (m * n) l.
Proof.
  induction m as [|m IH]; [done|].
  rewrite seq_S, !fmap_app, concat_app, IH. simpl.
  rewrite app_nil_r. unfold slice.
  replace (m * n + n - m * n)%nat with n by lia.
  rewrite take_take_drop. f_equal. lia.
Qed.

(** The chunks are contiguous and in input order: glued together they
    give back the input. *)
Lemma chunked_concat {A} (l : list A) (n : nat) :
  (0 < n)%nat → concat (chunked l n) = l.
Proof.
  intros Hn. unfold chunked, range_step.
  rewrite concat_slices. apply take_ge. by apply range_step_covers.
Qed.

(** No chunk is longer than the batch size. *)
Lemma chunked_length_le {A} (l : list A) (n : nat) :
  Forall (λ c, (length c ≤ n)%nat) (chunked l n).
Proof.
  unfold chunked. apply Forall_fmap, Forall_forall. intros i _. simpl.
  unfold slice. rewrite length_take. lia.
Qed.

(** No chunk is empty. *)
Lemma chunked_nonempty {A} (l : list A) (n : nat) :
  (0 < n)%nat → Forall (λ c, c ≠ []) (chunked l n).
Proof.
  intros Hn. unfold chunked, range_step.
  rewrite <- list_fmap_compose.
  apply Forall_fmap, Forall_forall. intros k Hk. simpl.
  apply elem_of_seq in Hk.
  pose proof (Nat.div_mod_eq (length l + n - 1) n) as Hdm.
  pose proof (Nat.mod_upper_bound (length l + n - 1) n) as Hmod.
  assert (k * n < length l)%nat as Hlt by nia.
  unfold slice. intros Hnil.
  apply (f_equal length) in Hnil.
  rewrite length_take, length_drop in Hnil. simpl in Hnil. lia.
Qed.

(** 250 identities are cut into chunks of 100, 100 and 50. *)
Lemma chunked_250 :
  length <$> chunked (Z.of_nat <$> seq 0 250) 100 = [100; 100; 50]%nat.
Proof. vm_compute. reflexivity. Qed.

(** The loop posts every chunk once, in order, skips the chunks answered
    with a status other than 200 and appends the others' presences. *)
Lemma presence_loop_spec up k chunks results posted :
  presence_loop up k chunks results posted
  = (results ++ successes up k chunks, posted ++ chunks).
Proof.
  revert k results posted.
  induction chunks as [|chunk rest IH]; intros k results posted; simpl.
  - by rewrite !app_nil_r.
  - destruct (decide (status (up k chunk) ≠ 200)) as [Hne|Heq].
    + rewrite IH. destruct (decide (status (up k chunk) = 200)); [done|].
      simpl. by rewrite <- app_assoc.
    + rewrite IH. destruct (decide (status (up k chunk) = 200)); [|done].
      by rewrite <- !app_assoc.
Qed.

(** C5. The batching fetcher as written never reaches its loop: for every
    non-empty sequence of identities, [get_presences] applies [await] to
    the asynchronous generator [chunked] returns and so ends with
    [TypeError], before any upstream call, whatever the upstream would
    answer. *)
Theorem get_presences_nonempty_raises (up : upstream) (uid : Z)
    (rest : list Z) :
  get_presences up (uid :: rest) = Raise TypeError.
Proof. reflexivity. Qed.

End FetcherFacts.

(** * Properties of the tracker loop *)
Section TrackerFacts.

Import Tracker Tick.

Lemma dict_set_keys {V} (k : Z) (v : V) (d : list (Z * V)) :
  (dict_set k v d).*1 = if decide (k ∈ d.*1) then d.*1 else d.*1 ++ [k].
Proof.
  induction d as [|[k' v'] d IH]; [done|].
  cbn [dict_set]. rewrite fmap_cons. cbn [fst].
  destruct (decide (k = k')) as [->|Hne].
  - rewrite fmap_cons. cbn [fst].
    destruct (decide (k' ∈ k' :: d.*1)) as [|Hnin]; [done|].
    destruct Hnin. apply list_elem_of_here.
  - rewrite fmap_cons, IH. cbn [fst].
    destruct (decide (k ∈ d.*1)) as [Hin|Hnin];
      destruct (decide (k ∈ k' :: d.*1)) as [Hin'|Hnin']; try done.
    + destruct Hnin'. by apply list_elem_of_further.
    + apply elem_of_cons in Hin' as [?|?]; done.
Qed.

Lemma dict_set_NoDup {V} (k : Z) (v : V) (d : list (Z * V)) :
  NoDup d.*1 → NoDup (dict_set k v d).*1.
Proof.
  intros Hnd. rewrite dict_set_keys. case_decide; [done|].
  apply NoDup_app. split; [done|]. split.
  - intros x Hx [ ->|[]%not_elem_of_nil]%elem_of_cons. done.
  - apply NoDup_singleton.
Qed.

(** The keys of [presence_map] are pairwise distinct: an identity has at
    most one snapshot in a tick. *)
Lemma presence_map_NoDup (ps : list presence) : NoDup (presence_map ps).*1.
Proof.
  unfold presence_map.
  assert (∀ d : list (Z * presence), NoDup d.*1 →
            NoDup (foldl (λ d p, dict_set (userId p) p d) d ps).*1) as H.
  { induction ps as [|p ps IH]; intros d Hd; simpl; [done|].
    apply IH. by apply dict_set_NoDup. }
  apply H. simpl. apply NoDup_nil_2.
Qed.

Lemma dict_get_None {V} (k : Z) (d : list (Z * V)) :
  dict_get k d = None ↔ k ∉ d.*1.
Proof.
  induction d as [|[k' v] d IH]; simpl.
  - split; [intros _; apply not_elem_of_nil|done].
  - destruct (decide (k = k')) as [->|Hne].
    + split; [done|]. intros []. apply list_elem_of_here.
    + rewrite IH, not_elem_of_cons. tauto.
Qed.

Lemma dict_get_Some {V} (k : Z) (v : V) (d : list (Z * V)) :
  dict_get k d = Some v → ∃ i, d !! i = Some (k, v).
Proof.
  induction d as [|[k' v'] d IH]; simpl; [done|].
  destruct (decide (k = k')) as [->|Hne].
  - intros [= ->]. by exists 0%nat.
  - intros [i Hi]%IH. by exists (S i).
Qed.

Lemma track_one_view last um now uid p s :
  view uid (track_one last um now uid p s)
  = step_view last um now uid p (view uid s).
Proof.
  unfold view, step_view, track_one.
  destruct (is_online p); simpl.
  - rewrite bool_decide_eq_true_2 by set_solver.
    destruct (ls_online_since s !! uid) as [o|] eqn:Ho; simpl;
      destruct (decide (presence_type p = 2)); simpl;
      destruct (ls_game_since s !! uid) as [g|] eqn:Hg; simpl;
      by simplify_map_eq.
  - destruct (decide (uid ∈ last)); simpl; [|done].
    unfold offline_events. rewrite List.filter_app. simpl.
    rewrite (bool_decide_eq_true_2 (uid = uid)) by done.
    by simplify_map_eq.
Qed.

Lemma track_one_view_ne last um now u uid p s :
  u ≠ uid → view uid (track_one last um now u p s) = view uid s.
Proof.
  intros Hne. unfold view, track_one.
  destruct (is_online p); simpl.
  - assert (bool_decide (uid ∈ {[u]} ∪ ls_current_online_set s)
            = bool_decide (uid ∈ ls_current_online_set s)) as ->.
    { apply bool_decide_ext. set_solver. }
    destruct (ls_online_since s !! u); destruct (decide (presence_type p = 2));
      destruct (ls_game_since s !! u); by simplify_map_eq.
  - destruct (decide (u ∈ last)); simpl; [|done].
    unfold offline_events. rewrite List.filter_app. simpl.
    rewrite (bool_decide_eq_false_2 (u = uid)) by done. rewrite app_nil_r.
    by simplify_map_eq.
Qed.

(** An identity without an item is not touched by the loop. *)
Lemma track_loop_view_absent last um clock i items uid s :
  uid ∉ items.*1 →
  view uid (track_loop last um clock i items s) = view uid s.
Proof.
  revert i s. induction items as [|[u p] items IH]; intros i s Hnin; [done|].
  rewrite fmap_cons in Hnin. cbn [track_loop].
  apply not_elem_of_cons in Hnin as [Hne Hnin].
  rewrite IH by done. by apply track_one_view_ne.
Qed.

(** An identity with an item is touched once, by the loop body on its
    item, at the clock reading of that iteration. *)
Lemma track_loop_view_present last um clock i items uid p k s :
  NoDup items.*1 → items !! k = Some (uid, p) →
  view uid (track_loop last um clock i items s)
  = step_view last um (clock (i + k)%nat) uid p (view uid s).
Proof.
  revert i k s. induction items as [|[u q] items IH]; intros i k s Hnd Hk;
    [done|].
  rewrite fmap_cons in Hnd. apply NoDup_cons in Hnd as [Hu Hnd].
  cbn [track_loop]. destruct k as [|k]; cbn in Hk.
  - injection Hk as -> ->.
    rewrite track_loop_view_absent by done.
    rewrite Nat.add_0_r. apply track_one_view.
  - assert (u ≠ uid) as Hne.
    { intros ->. apply Hu. apply list_elem_of_fmap.
      exists (uid, p). split; [done|]. by eapply list_elem_of_lookup_2. }
    rewrite (IH (S i) k) by done.
    rewrite track_one_view_ne by done.
    by replace (S i + k)%nat with (i + S k)%nat by lia.
Qed.

End TrackerFacts.

(** * Properties of the polling tick *)
Section TickFacts.

Import Tracker Renderer Publisher Tick.

Variable py : Renderer.pylib.

Local Abbreviation tick := (update_status_message py).

Lemma runs_dec (env : tick_env) : {runs env} + {¬ runs env}.
Proof.
  unfold runs. destruct (bot_closed env), (channels_found env);
    (by left) || (right; by intros [? ?]).
Qed.

(** A tick that returns early changes nothing and notifies nobody. *)
Lemma tick_skipped env st :
  ¬ runs env → tr_state (tick env st) = st ∧ tr_events (tick env st) = [].
Proof.
  unfold runs, update_status_message. intros Hn.
  destruct (bot_closed env); [done|].
  destruct (channels_found env); [|done]. by destruct Hn.
Qed.

(** The tracker part of the state after a tick that runs. *)
Lemma tick_tracker env st :
  runs env →
  online_since (tr_state (tick env st)) = ls_online_since (tracked env st)
  ∧ game_since (tr_state (tick env st)) = ls_game_since (tracked env st)
  ∧ last_online_set (tr_state (tick env st))
    = ls_current_online_set (tracked env st)
  ∧ tr_events (tick env st)
    = ls_events (tracked env st)
      ++ online_events (username_map env) (clock env)
           (length (presence_map (presences env)))
           (ls_current_online_set (tracked env st) ∖ last_online_set st).
Proof.
  intros [Hc Hf]. unfold update_status_message. rewrite Hc, Hf. simpl.
  by destruct (publish _ _ _ _) as [[h f] acts].
Qed.

Lemma view_init uid st :
  view uid (init_loop st)
  = (online_since st !! uid, game_since st !! uid, false, []).
Proof.
  unfold view, init_loop. cbn [ls_online_since ls_game_since ls_events
    ls_current_online_set offline_events List.filter].
  rewrite bool_decide_eq_false_2; [done|]. apply not_elem_of_empty.
Qed.

(** The loop on an identity that has no snapshot. *)
Lemma tracked_absent env st uid :
  snapshot env uid = None →
  view uid (tracked env st)
  = (online_since st !! uid, game_since st !! uid, false, []).
Proof.
  intros Hs. apply dict_get_None in Hs. unfold tracked.
  rewrite track_loop_view_absent by done. apply view_init.
Qed.

(** The loop on an identity that has a snapshot: its item is handled at
    some iteration [k], with the clock reading of that iteration. *)
Lemma tracked_present env st uid p :
  snapshot env uid = Some p →
  ∃ k, presence_map (presences env) !! k = Some (uid, p)
       ∧ view uid (tracked env st)
         = step_view (last_online_set st) (username_map env) (clock env k)
             uid p (online_since st !! uid, game_since st !! uid, false, []).
Proof.
  intros [k Hk]%dict_get_Some. exists k. split; [done|]. unfold tracked.
  rewrite (track_loop_view_present _ _ _ _ _ _ p k)
    by (done || apply presence_map_NoDup).
  by rewrite view_init.
Qed.

Lemma track_one_offline_only last um now uid p s :
  Forall (λ e, is_offline_notification e = true) (ls_events s) →
  Forall (λ e, is_offline_notification e = true)
    (ls_events (track_one last um now uid p s)).
Proof.
  intros Hs. unfold track_one.
  destruct (is_online p); [done|].
  destruct (decide (uid ∈ last)); [|done]. simpl.
  apply Forall_app. split; [done|].
  apply Forall_singleton. unfold is_offline_notification. simpl.
  by apply bool_decide_eq_true_2.
Qed.

Lemma track_loop_offline_only last um clock i items s :
  Forall (λ e, is_offline_notification e = true) (ls_events s) →
  Forall (λ e, is_offline_notification e = true)
    (ls_events (track_loop last um clock i items s)).
Proof.
  revert i s. induction items as [|[u p] items IH]; intros i s Hs; [done|].
  cbn [track_loop]. apply IH. by apply track_one_offline_only.
Qed.

Lemma tracked_offline_only env st :
  Forall (λ e, is_offline_notification e = true) (ls_events (tracked env st)).
Proof. apply track_loop_offline_only. simpl. apply Forall_nil_2. Qed.

(** A notification of the loop about [uid] is one of [offline_events uid]. *)
Lemma tracked_event_offline env st e :
  e ∈ ls_events (tracked env st) →
  e ∈ offline_events (event_uid e) (ls_events (tracked env st)).
Proof.
  intros He. unfold offline_events.
  apply list_elem_of_In, filter_In. split; [by apply list_elem_of_In|].
  pose proof (tracked_offline_only env st) as Hall.
  rewrite Forall_forall in Hall. by apply Hall.
Qed.

Lemma tracked_no_online_event env st uid :
  List.filter (is_online_event uid) (ls_events (tracked env st)) = [].
Proof.
  pose proof (tracked_offline_only env st) as Hall.
  induction Hall as [|e evs He _ IH]; [done|]. simpl.
  destruct e; simpl in *; [done|].
  unfold is_offline_notification in He. simpl in He. done.
Qed.

Lemma online_events_uid um clock i X e :
  e ∈ online_events um clock i X → event_uid e ∈ X.
Proof.
  unfold online_events. intros He.
  apply elem_of_lookup_imap in He as (j & u & -> & Hu). simpl.
  apply elem_of_elements. by eapply list_elem_of_lookup_2.
Qed.

Lemma online_events_no_offline um clock i X uid :
  offline_events uid (online_events um clock i X) = [].
Proof.
  unfold offline_events, online_events. generalize (elements X) as l.
  intros l. revert i. induction l as [|u l IH]; intros i; [done|].
  rewrite imap_cons. simpl.
  specialize (IH (S i)).
  erewrite imap_ext; [exact IH|]. intros j x _. simpl.
  by replace (i + S j)%nat with (S i + j)%nat by lia.
Qed.

Lemma online_events_count um clock i X uid :
  online_event_count uid (online_events um clock i X)
  = if decide (uid ∈ X) then 1%nat else 0%nat.
Proof.
  unfold online_event_count, online_events.
  assert (∀ l i, NoDup l →
    length (List.filter (is_online_event uid)
      (imap (λ j u, OnlineEvent u (user_name um u) (clock (i + j)%nat)) l))
    = if decide (uid ∈ l) then 1%nat else 0%nat) as Hcount.
  { clear. induction l as [|u l IH]; intros i Hnd; [done|].
    apply NoDup_cons in Hnd as [Hu Hnd]. rewrite imap_cons.
    cbn [List.filter is_online_event].
    erewrite (imap_ext _ _ l); last first.
    { intros j x _. simpl.
      by replace (i + S j)%nat with (S i + j)%nat by lia. }
    specialize (IH (S i) Hnd).
    destruct (decide (u = uid)) as [->|Hne].
    - rewrite bool_decide_eq_true_2 by done. cbn [length]. rewrite IH.
      destruct (decide (uid ∈ l)) as [|_]; [done|].
      destruct (decide (uid ∈ uid :: l)) as [|Hn]; [done|].
      destruct Hn. apply list_elem_of_here.
    - rewrite bool_decide_eq_false_2 by done. rewrite IH.
      destruct (decide (uid ∈ l)) as [Hin|Hnin];
        destruct (decide (uid ∈ u :: l)) as [Hin'|Hnin']; try done.
      + destruct Hnin'. by apply list_elem_of_further.
      + apply elem_of_cons in Hin' as [?|?]; done. }
  rewrite Hcount by apply NoDup_elements.
  destruct (decide (uid ∈ X)) as [Hin|Hnin];
    destruct (decide (uid ∈ elements X)) as [Hin'|Hnin']; try done.
  - destruct Hnin'. by apply elem_of_elements.
  - destruct Hnin. by apply elem_of_elements.
Qed.

End TickFacts.

(** * The claims on the polling tick *)
Section TickClaims.

Import Tracker Renderer Publisher Tick.

Variable py : Renderer.pylib.

Local Abbreviation tick := (update_status_message py).

Lemma dict_get_elem {V} (k : Z) (v : V) (d : list (Z * V)) :
  NoDup d.*1 → (k, v) ∈ d → dict_get k d = Some v.
Proof.
  induction d as [|[k' v'] d IH]; intros Hnd Hin.
  - by apply not_elem_of_nil in Hin.
  - rewrite fmap_cons in Hnd. apply NoDup_cons in Hnd as [Hk' Hnd].
    cbn [dict_get]. apply elem_of_cons in Hin as [[= -> ->]|Hin].
    + by rewrite decide_True.
    + rewrite decide_False; [by apply IH|].
      intros ->. apply Hk'. apply list_elem_of_fmap. by exists (k', v).
Qed.

Lemma kind_offline_iff p : kind_of p = Offline ↔ is_online p = false.
Proof.
  unfold kind_of, is_online.
  destruct (decide (presence_type p = 0)) as [H0|H0].
  - split; [|done]. intros _. by apply bool_decide_eq_false_2; intros [].
  - split.
    + by destruct (decide (presence_type p = 2)).
    + intros Hb. by apply bool_decide_eq_false_1 in Hb; destruct Hb.
Qed.

(** [current_online_set] after the loop holds the identities that appear
    online in the snapshot. *)
Lemma tracked_current env st uid :
  bool_decide (uid ∈ ls_current_online_set (tracked env st))
  = appears_online env uid.
Proof.
  unfold appears_online. destruct (snapshot env uid) as [p|] eqn:Hs.
  - destruct (tracked_present env st uid p Hs) as (k & _ & Hv).
    unfold view in Hv. unfold step_view in Hv.
    destruct (is_online p); [by injection Hv|].
    destruct (decide (uid ∈ last_online_set st)); by injection Hv.
  - pose proof (tracked_absent env st uid Hs) as Hv.
    unfold view in Hv. by injection Hv.
Qed.

Lemma tracked_current_iff env st uid :
  uid ∈ ls_current_online_set (tracked env st)
  ↔ appears_online env uid = true.
Proof.
  rewrite <- (tracked_current env st uid). symmetry.
  apply bool_decide_eq_true.
Qed.

Lemma snapshot_online_set_spec env uid :
  uid ∈ snapshot_online_set env ↔ appears_online env uid = true.
Proof.
  unfold snapshot_online_set, appears_online, snapshot.
  rewrite elem_of_list_to_set, list_elem_of_fmap. split.
  - intros ([k p] & -> & Hin). apply list_elem_of_In, filter_In in Hin.
    destruct Hin as [Hin Hon]. apply list_elem_of_In in Hin. simpl in *.
    by rewrite (dict_get_elem k p) by (done || apply presence_map_NoDup).
  - destruct (dict_get uid _) as [p|] eqn:Hg; [|done]. intros Hon.
    apply dict_get_Some in Hg as [i Hi]. exists (uid, p). split; [done|].
    apply list_elem_of_In, filter_In. split; [|done].
    apply list_elem_of_In. by eapply list_elem_of_lookup_2.
Qed.

(** C7. In every tick that reaches the snapshot, [last_online_set] after
    the tick is exactly the set of identities whose snapshot is not
    Offline, whatever the status channel and the state file do when the
    status display is published (edit or send failing in any way, write
    failing). *)
Theorem last_online_set_replaced (env : tick_env) (st : bot_state)
    (pe : pub_env) :
  runs env →
  last_online_set (tr_state (tick (with_pub env pe) st))
  = snapshot_online_set env.
Proof.
  intros Hr.
  assert (runs (with_pub env pe)) as Hr' by done.
  destruct (tick_tracker py _ st Hr') as (_ & _ & -> & _).
  apply set_eq. intros uid.
  rewrite snapshot_online_set_spec.
  rewrite <- (tracked_current env st uid).
  unfold tracked, with_pub. simpl.
  split; [apply bool_decide_eq_true_2|apply bool_decide_eq_true_1].
Qed.

(** C10. An identity that has no snapshot in a tick gets no notification,
    online or offline, in that tick, and its timers [online_since] and
    [game_since] are what they were before the tick. *)
Theorem absent_identity_untouched (env : tick_env) (st : bot_state)
    (uid : Z) :
  snapshot env uid = None →
  Forall (λ e, event_uid e ≠ uid) (tr_events (tick env st))
  ∧ online_since (tr_state (tick env st)) !! uid = online_since st !! uid
  ∧ game_since (tr_state (tick env st)) !! uid = game_since st !! uid.
Proof.
  intros Hs. destruct (runs_dec env) as [Hr|Hr].
  - destruct (tick_tracker py env st Hr) as (-> & -> & _ & ->).
    pose proof (tracked_absent env st uid Hs) as Hv.
    unfold view in Hv. injection Hv as Ho Hg Hc Hev.
    split; [|done].
    apply Forall_app. split; apply Forall_forall; intros e He Heq.
    + apply tracked_event_offline in He. rewrite Heq, Hev in He.
      by apply not_elem_of_nil in He.
    + apply online_events_uid in He. rewrite Heq in He.
      apply elem_of_difference in He as [He _].
      by apply bool_decide_eq_false_1 in Hc.
  - destruct (tick_skipped py env st Hr) as [-> ->].
    split; [apply Forall_nil_2|done].
Qed.

End TickClaims.

(** The tick of the first example with a status channel on which every
    call fails and a state file that cannot be opened for writing. *)
Lemma last_online_set_replaced_witness :
  last_online_set
    (Tick.tr_state
       (Tick.update_status_message Examples.plain_lib
          (Tick.with_pub Examples.tick_in_game Examples.channel_down)
          Examples.fresh))
  = Tick.snapshot_online_set Examples.tick_in_game.
Proof.
  apply (last_online_set_replaced Examples.plain_lib Examples.tick_in_game
           Examples.fresh Examples.channel_down).
  split; reflexivity.
Defined.

(** Alice, tracked since the first tick, is missing from the response. *)
Lemma absent_identity_witness :
  Forall (λ e, Tick.event_uid e ≠ Examples.alice)
    (Tick.tr_events
       (Tick.update_status_message Examples.plain_lib Examples.tick_missing
          Examples.after_in_game))
  ∧ online_since
      (Tick.tr_state
         (Tick.update_status_message Examples.plain_lib Examples.tick_missing
            Examples.after_in_game)) !! Examples.alice
    = online_since Examples.after_in_game !! Examples.alice
  ∧ game_since
      (Tick.tr_state
         (Tick.update_status_message Examples.plain_lib Examples.tick_missing
            Examples.after_in_game)) !! Examples.alice
    = game_since Examples.after_in_game !! Examples.alice.
Proof.
  apply (absent_identity_untouched Examples.plain_lib Examples.tick_missing
           Examples.after_in_game Examples.alice).
  reflexivity.
Defined.

(** * The claims on offline and online notifications *)
Section NotificationClaims.

Import Tracker Renderer Publisher Tick.

Variable py : Renderer.pylib.

Local Abbreviation tick := (update_status_message py).

Lemma offline_events_tick env st uid :
  runs env →
  offline_events uid (tr_events (tick env st))
  = offline_events uid (ls_events (tracked env st)).
Proof.
  intros Hr. destruct (tick_tracker py env st Hr) as (_ & _ & _ & ->).
  unfold offline_events at 1. rewrite List.filter_app.
  fold (offline_events uid (ls_events (tracked env st))).
  fold (offline_events uid
          (online_events (username_map env) (clock env)
             (length (presence_map (presences env)))
             (ls_current_online_set (tracked env st) ∖ last_online_set st))).
  by rewrite online_events_no_offline, app_nil_r.
Qed.

Lemma snapshot_kind_offline env uid :
  snapshot_kind env uid = Some Offline →
  ∃ p, snapshot env uid = Some p ∧ is_online p = false.
Proof.
  unfold snapshot_kind. destruct (snapshot env uid) as [p|]; [|done].
  intros [= Hk]. exists p. split; [done|]. by apply kind_offline_iff.
Qed.

(** C1, as the code has it: the test is membership of [last_online_set].
    For an identity whose snapshot is Offline: if it is in
    [last_online_set], the tick issues exactly one offline notification for
    it, carrying [now - online_since] and [now - game_since] (each zero
    when the timer is missing) with [now] the clock reading of its
    iteration, and removes both timers; if it is not in [last_online_set],
    the tick issues no offline notification for it and leaves both timers
    as they were. *)
Theorem offline_rule_by_last_online_set (env : tick_env) (st : bot_state)
    (uid : Z) :
  runs env → snapshot_kind env uid = Some Offline →
  let r := tick env st in
  (uid ∈ last_online_set st →
     (∃ k p, presence_map (presences env) !! k = Some (uid, p)
        ∧ offline_events uid (tr_events r)
          = [OfflineEvent uid (user_name (username_map env) uid)
               (clock env k)
               (duration_since (clock env k) (online_since st !! uid))
               (duration_since (clock env k) (game_since st !! uid))])
     ∧ online_since (tr_state r) !! uid = None
     ∧ game_since (tr_state r) !! uid = None)
  ∧ (uid ∉ last_online_set st →
     offline_events uid (tr_events r) = []
     ∧ online_since (tr_state r) !! uid = online_since st !! uid
     ∧ game_since (tr_state r) !! uid = game_since st !! uid).
Proof.
  intros Hr (p & Hs & Hoff)%snapshot_kind_offline. simpl.
  rewrite (offline_events_tick env st uid Hr).
  destruct (tick_tracker py env st Hr) as (-> & -> & _ & _).
  destruct (tracked_present env st uid p Hs) as (k & Hk & Hv).
  unfold view, step_view in Hv. rewrite Hoff in Hv.
  split; intros Hlast.
  - rewrite decide_True in Hv by done. injection Hv as Ho Hg _ Hev.
    split; [|done]. exists k, p. split; [done|]. by rewrite Hev.
  - rewrite decide_False in Hv by done. by injection Hv as Ho Hg _ Hev.
Qed.

End NotificationClaims.

(** The rule at a concrete tick: Alice, in a game at the first tick, is
    offline at the next. *)
Lemma offline_rule_witness :
  let env := Examples.tick_offline in
  let st := Examples.after_in_game in
  let r := Tick.update_status_message Examples.plain_lib env st in
  (Examples.alice ∈ last_online_set st →
     (∃ k p, Tracker.presence_map (Tick.presences env) !! k
             = Some (Examples.alice, p)
        ∧ Tick.offline_events Examples.alice (Tick.tr_events r)
          = [OfflineEvent Examples.alice
               (Tracker.user_name (Tick.username_map env) Examples.alice)
               (Tick.clock env k)
               (Tick.duration_since (Tick.clock env k)
                  (online_since st !! Examples.alice))
               (Tick.duration_since (Tick.clock env k)
                  (game_since st !! Examples.alice))])
     ∧ online_since (Tick.tr_state r) !! Examples.alice = None
     ∧ game_since (Tick.tr_state r) !! Examples.alice = None)
  ∧ (Examples.alice ∉ last_online_set st →
     Tick.offline_events Examples.alice (Tick.tr_events r) = []
     ∧ online_since (Tick.tr_state r) !! Examples.alice
       = online_since st !! Examples.alice
     ∧ game_since (Tick.tr_state r) !! Examples.alice
       = game_since st !! Examples.alice).
Proof.
  apply (offline_rule_by_last_online_set Examples.plain_lib
           Examples.tick_offline Examples.after_in_game Examples.alice).
  - split; reflexivity.
  - vm_compute. reflexivity.
Defined.

(** C1 as stated fails: after a tick with Alice in a game and a tick whose
    response has nothing about her, she has a SessionState entry; a tick
    that reports her Offline then issues no offline notification for her
    and keeps the entry. *)
Lemma offline_rule_by_session_entry_fails :
  ¬ Tick.offline_rule_by_session_entry.
Proof.
  intros H.
  pose proof (H Examples.plain_lib
                [Examples.tick_in_game; Examples.tick_missing]
                Examples.tick_offline Examples.alice None 0) as H'.
  clear H. cbv zeta in H'.
  assert (Tick.runs Examples.tick_offline) as Hruns by (split; reflexivity).
  assert (Tick.snapshot_kind Examples.tick_offline Examples.alice
          = Some Tick.Offline) as Hkind by (vm_compute; reflexivity).
  destruct (H' Hruns Hkind) as [Hentry _]. clear H'.
  match type of Hentry with
  | ?P → _ => assert P as Hsome by (vm_compute; eexists; reflexivity)
  end.
  destruct (Hentry Hsome) as [[name [now Hev]] _]. clear Hentry.
  match type of Hev with
  | ?evs = _ => assert (evs = []) as Hnone by (vm_compute; reflexivity)
  end.
  rewrite Hnone in Hev. discriminate Hev.
Qed.

(** * The claim on online notifications *)
Section OnlineClaims.

Import Tracker Renderer Publisher Tick.

Variable py : Renderer.pylib.

Local Abbreviation tick := (update_status_message py).

Lemma online_event_count_tick env st uid :
  runs env →
  online_event_count uid (tr_events (tick env st))
  = if decide (uid ∈ ls_current_online_set (tracked env st)
                     ∖ last_online_set st)
    then 1%nat else 0%nat.
Proof.
  intros Hr. destruct (tick_tracker py env st Hr) as (_ & _ & _ & ->).
  unfold online_event_count. rewrite List.filter_app, length_app.
  rewrite tracked_no_online_event. simpl.
  apply online_events_count.
Qed.

(** While an identity that is in [last_online_set] appears online, a tick
    issues no online notification for it and keeps it in the set. *)
Lemma still_online_quiet env st uid :
  uid ∈ last_online_set st → appears_online env uid = true →
  online_event_count uid (tr_events (tick env st)) = 0%nat
  ∧ uid ∈ last_online_set (tr_state (tick env st)).
Proof.
  intros Hlast Hon. destruct (runs_dec env) as [Hr|Hr].
  - rewrite (online_event_count_tick env st uid Hr).
    destruct (tick_tracker py env st Hr) as (_ & _ & -> & _).
    rewrite <- (tracked_current env st uid) in Hon.
    apply bool_decide_eq_true_1 in Hon. split; [|done].
    rewrite decide_False; [done|]. set_solver.
  - by destruct (tick_skipped py env st Hr) as [-> ->].
Qed.

Lemma run_cons env envs st :
  (run py (env :: envs) st).2
  = tr_events (tick env st) ++ (run py envs (tr_state (tick env st))).2.
Proof. simpl. by destruct (run py envs _). Qed.

Lemma online_event_count_app uid evs1 evs2 :
  online_event_count uid (evs1 ++ evs2)
  = (online_event_count uid evs1 + online_event_count uid evs2)%nat.
Proof.
  unfold online_event_count. by rewrite List.filter_app, length_app.
Qed.

Lemma run_still_online_quiet envs st uid :
  uid ∈ last_online_set st →
  Forall (λ env, appears_online env uid = true) envs →
  online_event_count uid (run py envs st).2 = 0%nat.
Proof.
  intros Hlast Hall. revert st Hlast.
  induction Hall as [|env envs Hon _ IH]; intros st Hlast; [done|].
  rewrite run_cons, online_event_count_app.
  destruct (still_online_quiet env st uid Hlast Hon) as [-> Hlast'].
  by rewrite IH.
Qed.

(** C2. An identity that appears online in a tick while it is not in
    [last_online_set] gets exactly one online notification in that tick;
    and over any number of following ticks in each of which it still
    appears online, it gets no further online notification. *)
Theorem online_event_exactly_once (env : tick_env) (envs : list tick_env)
    (st : bot_state) (uid : Z) :
  runs env → appears_online env uid = true → uid ∉ last_online_set st →
  Forall (λ env', appears_online env' uid = true) envs →
  online_event_count uid (tr_events (tick env st)) = 1%nat
  ∧ online_event_count uid (run py envs (tr_state (tick env st))).2
    = 0%nat.
Proof.
  intros Hr Hon Hlast Hall.
  pose proof Hon as Hcur. rewrite <- (tracked_current env st uid) in Hcur.
  apply bool_decide_eq_true_1 in Hcur. split.
  - rewrite (online_event_count_tick env st uid Hr).
    rewrite decide_True; [done|]. set_solver.
  - apply run_still_online_quiet; [|done].
    by destruct (tick_tracker py env st Hr) as (_ & _ & -> & _).
Qed.

End OnlineClaims.

(** Alice comes online in a game and stays online, idle, over the next
    two ticks: one online notification, then none. *)
Lemma online_event_witness :
  Tick.online_event_count Examples.alice
    (Tick.tr_events
       (Tick.update_status_message Examples.plain_lib Examples.tick_in_game
          Examples.fresh)) = 1%nat
  ∧ Tick.online_event_count Examples.alice
      (Tick.run Examples.plain_lib [Examples.tick_idle; Examples.tick_idle]
         (Tick.tr_state
            (Tick.update_status_message Examples.plain_lib
               Examples.tick_in_game Examples.fresh))).2 = 0%nat.
Proof.
  apply (online_event_exactly_once Examples.plain_lib Examples.tick_in_game
           [Examples.tick_idle; Examples.tick_idle] Examples.fresh
           Examples.alice).
  - split; reflexivity.
  - vm_compute. reflexivity.
  - apply not_elem_of_empty.
  - repeat constructor.
Defined.

(** * The claim on the durations of offline notifications *)
Section DurationClaims.

Import Tracker Renderer Publisher Tick.

Variable py : Renderer.pylib.

Local Abbreviation tick := (update_status_message py).

(** The offline notifications of the loop for one identity: none, or the
    single one issued at its item when the snapshot is Offline and the
    identity is in [last_online_set]. *)
Lemma offline_events_cases env st uid :
  offline_events uid (ls_events (tracked env st)) = []
  ∨ ∃ k p,
      presence_map (presences env) !! k = Some (uid, p)
      ∧ is_online p = false
      ∧ uid ∈ last_online_set st
      ∧ offline_events uid (ls_events (tracked env st))
        = [OfflineEvent uid (user_name (username_map env) uid) (clock env k)
             (duration_since (clock env k) (online_since st !! uid))
             (duration_since (clock env k) (game_since st !! uid))].
Proof.
  destruct (snapshot env uid) as [p|] eqn:Hs.
  - destruct (tracked_present env st uid p Hs) as (k & Hk & Hv).
    unfold view, step_view in Hv.
    destruct (is_online p) eqn:Hon; [left; by injection Hv|].
    destruct (decide (uid ∈ last_online_set st)) as [Hlast|Hlast];
      [|left; by injection Hv].
    right. exists k, p. injection Hv as _ _ _ Hev. by rewrite Hev.
  - left. pose proof (tracked_absent env st uid Hs) as Hv.
    unfold view in Hv. by injection Hv.
Qed.

(** No offline notification for an identity outside [last_online_set]. *)
Lemma offline_event_needs_last env st uid :
  uid ∉ last_online_set st → offline_events uid (tr_events (tick env st)) = [].
Proof.
  intros Hlast. destruct (runs_dec env) as [Hr|Hr].
  - rewrite (offline_events_tick py env st uid Hr).
    destruct (offline_events_cases env st uid) as [H|(k & p & _ & _ & H & _)];
      done.
  - by destruct (tick_skipped py env st Hr) as [_ ->].
Qed.

Lemma timers_ordered_initial file start t :
  timers_ordered t (initial_state file start).
Proof. intros uid. simpl. by rewrite !lookup_empty. Qed.

Lemma timers_ordered_later t t' st :
  t ≤ t' → timers_ordered t st → timers_ordered t' st.
Proof.
  intros Hle Hst uid. specialize (Hst uid).
  destruct (online_since st !! uid), (game_since st !! uid); lia.
Qed.

(** A tick whose clock readings lie between [t] and [t'] keeps the timers
    ordered. *)
Lemma timers_ordered_tick t t' env st :
  timers_ordered t st → (∀ i, t ≤ clock env i ≤ t') →
  timers_ordered t' (tr_state (tick env st)).
Proof.
  intros Hst Hclock.
  assert (t ≤ t') as Hle by (specialize (Hclock 0%nat); lia).
  destruct (runs_dec env) as [Hr|Hr]; last first.
  { destruct (tick_skipped py env st Hr) as [-> _].
    by apply (timers_ordered_later t). }
  intros uid. specialize (Hst uid).
  destruct (tick_tracker py env st Hr) as (-> & -> & _ & _).
  destruct (snapshot env uid) as [p|] eqn:Hs.
  - destruct (tracked_present env st uid p Hs) as (k & _ & Hv).
    specialize (Hclock k).
    unfold view, step_view in Hv.
    destruct (is_online p).
    + injection Hv as -> Hg _ _.
      destruct (decide (presence_type p = 2)); rewrite Hg;
        destruct (online_since st !! uid), (game_since st !! uid);
        simpl; lia.
    + destruct (decide (uid ∈ last_online_set st)).
      * by injection Hv as -> -> _ _.
      * injection Hv as -> -> _ _.
        destruct (online_since st !! uid), (game_since st !! uid); lia.
  - pose proof (tracked_absent env st uid Hs) as Hv.
    unfold view in Hv. injection Hv as -> -> _ _.
    destruct (online_since st !! uid), (game_since st !! uid); lia.
Qed.

Lemma reachable_timers_ordered t st :
  reachable py t st → timers_ordered t st.
Proof.
  induction 1 as [file start t|t t' env st _ IH Hclock].
  - apply timers_ordered_initial.
  - by apply (timers_ordered_tick t).
Qed.

(** C4. An offline notification a tick issues is the only offline
    notification of that tick for the identity; the identity was in
    [last_online_set] before the tick and is out of it after, and the next
    tick, whatever it observes, issues no offline notification for it.  Its
    durations are [now - online_since] and [now - game_since] for one
    clock reading [now] of the tick, zero without the timer, so they
    satisfy [0 <= total_game <= total_online] exactly when the timers are
    ordered up to [now]; and they are whenever the bot reached the state
    with a clock that did not run backwards from one tick to the next and
    the readings of this tick are no earlier. *)
Theorem offline_event_durations (st : bot_state) (env : tick_env)
    (uid : Z) (name : string) (now total_online total_game : Z) :
  OfflineEvent uid name now total_online total_game ∈ tr_events (tick env st) →
  offline_events uid (tr_events (tick env st))
  = [OfflineEvent uid name now total_online total_game]
  ∧ uid ∈ last_online_set st
  ∧ (uid ∉ last_online_set (tr_state (tick env st)))
  ∧ (∀ env', offline_events uid
               (tr_events (tick env' (tr_state (tick env st)))) = [])
  ∧ (∃ k, now = clock env k)
  ∧ total_online = duration_since now (online_since st !! uid)
  ∧ total_game = duration_since now (game_since st !! uid)
  ∧ (0 ≤ total_game ≤ total_online
     ↔ timers_ordered_at now (online_since st !! uid) (game_since st !! uid))
  ∧ ∀ t, reachable py t st → (∀ i, t ≤ clock env i) →
         0 ≤ total_game ≤ total_online.
Proof.
  intros Hin.
  destruct (runs_dec env) as [Hr|Hr]; last first.
  { destruct (tick_skipped py env st Hr) as [_ Hnil].
    rewrite Hnil in Hin. by apply not_elem_of_nil in Hin. }
  assert (uid ∉ last_online_set (tr_state (tick env st)) →
          ∀ env', offline_events uid
                    (tr_events (tick env' (tr_state (tick env st)))) = [])
    as Hnext by (intros Hout env'; by apply offline_event_needs_last).
  rewrite (offline_events_tick py env st uid Hr).
  destruct (tick_tracker py env st Hr) as (_ & _ & Hlast' & Hev).
  rewrite Hev in Hin. apply elem_of_app in Hin as [Hin|Hin]; last first.
  { unfold online_events in Hin.
    by apply elem_of_lookup_imap in Hin as (j & u & ? & _). }
  apply tracked_event_offline in Hin. cbn [event_uid] in Hin.
  destruct (offline_events_cases env st uid)
    as [Hnil|(k & p & Hk & Hoff & Hlast & Hone)].
  { rewrite Hnil in Hin. by apply not_elem_of_nil in Hin. }
  rewrite Hone in Hin. apply list_elem_of_singleton in Hin.
  injection Hin as -> -> -> ->.
  assert (uid ∉ last_online_set (tr_state (tick env st))) as Hout.
  { rewrite Hlast'. intros Hcur.
    apply (bool_decide_eq_true_2 _) in Hcur.
    rewrite tracked_current in Hcur. unfold appears_online, snapshot in Hcur.
    rewrite (dict_get_elem uid p) in Hcur; [congruence|apply presence_map_NoDup|].
    by eapply list_elem_of_lookup_2. }
  do 4 (split; [by auto|]). split; [by exists k|]. do 2 (split; [done|]).
  split.
  - unfold timers_ordered_at.
    destruct (online_since st !! uid), (game_since st !! uid); simpl; lia.
  - intros t Hreach Hclock. apply reachable_timers_ordered in Hreach.
    specialize (Hreach uid). specialize (Hclock k).
    destruct (online_since st !! uid), (game_since st !! uid); simpl; lia.
Qed.

End DurationClaims.

(** Alice, in a game since the first tick, is reported offline a minute
    later: one notification, sixty seconds online and in the game. *)
Lemma offline_event_durations_witness :
  Tick.offline_events Examples.alice
    (Tick.tr_events
       (Tick.update_status_message Examples.plain_lib
          Examples.tick_offline Examples.after_in_game))
  = [OfflineEvent Examples.alice "1" (Examples.seconds 160)
       (Examples.seconds 60) (Examples.seconds 60)]
  ∧ Examples.alice ∈ last_online_set Examples.after_in_game
  ∧ (Examples.alice
     ∉ last_online_set
         (Tick.tr_state
            (Tick.update_status_message Examples.plain_lib
               Examples.tick_offline Examples.after_in_game)))
  ∧ Tick.timers_ordered_at (Examples.seconds 160)
      (online_since Examples.after_in_game !! Examples.alice)
      (game_since Examples.after_in_game !! Examples.alice)
  ∧ 0 ≤ Examples.seconds 60 ≤ Examples.seconds 60.
Proof.
  destruct (offline_event_durations Examples.plain_lib
              Examples.after_in_game Examples.tick_offline Examples.alice "1"
              (Examples.seconds 160) (Examples.seconds 60)
              (Examples.seconds 60))
    as (Hone & Hlast & Hout & _ & _ & _ & _ & Hiff & Hord).
  { vm_compute. apply list_elem_of_here. }
  assert (0 ≤ Examples.seconds 60 ≤ Examples.seconds 60) as Hdur.
  { apply (Hord (Examples.seconds 100)).
    - apply (Tick.reachable_tick Examples.plain_lib 0 (Examples.seconds 100)
               Examples.tick_in_game Examples.fresh).
      + apply Tick.reachable_initial.
      + intros i. vm_compute. split; discriminate.
    - intros i. vm_compute. discriminate. }
  split; [exact Hone|]. split; [exact Hlast|]. split; [exact Hout|].
  split; [|exact Hdur]. apply Hiff. exact Hdur.
Defined.

(** C4, the claim as stated fails when the clock is set back between
    ticks: Alice is seen online and idle at 100 s, in a game at a reading
    of 50 s, and offline at 200 s; the notification carries 100 s online
    and 150 s in the game. *)
Lemma offline_durations_ordered_fails : ¬ Tick.offline_durations_ordered.
Proof.
  intros H.
  pose proof (H Examples.plain_lib
                [Examples.tick_at (Examples.seconds 100) [Examples.alice_idle];
                 Examples.tick_at (Examples.seconds 50)
                   [Examples.alice_in_game]]
                (Examples.tick_at (Examples.seconds 200)
                   [Examples.alice_offline])
                None 0 Examples.alice "1" (Examples.seconds 200)
                (Examples.seconds 100) (Examples.seconds 150)) as H'.
  cbv zeta in H'.
  assert (0 ≤ Examples.seconds 150 ≤ Examples.seconds 100) as [_ Hle].
  { apply H'. vm_compute. apply list_elem_of_here. }
  vm_compute in Hle. by apply Hle.
Qed.

(** * The claim on [activeSince] *)
Section ActiveSinceClaims.

Import Tracker Renderer Publisher Tick.

Variable py : Renderer.pylib.

Local Abbreviation tick := (update_status_message py).

Lemma kind_of_cases p :
  (kind_of p = Offline ∧ is_online p = false)
  ∨ (kind_of p = OnlineActive ∧ is_online p = true ∧ presence_type p = 2)
  ∨ (kind_of p = OnlineIdle ∧ is_online p = true ∧ presence_type p ≠ 2).
Proof.
  unfold kind_of, is_online.
  destruct (decide (presence_type p = 0)) as [H0|H0].
  - left. split; [done|]. by apply bool_decide_eq_false_2; intros [].
  - right. rewrite bool_decide_eq_true_2 by done.
    destruct (decide (presence_type p = 2)); [by left|by right].
Qed.

(** [game_since] of an identity after a tick that runs, by the kind of its
    snapshot: set when in a game, cleared when online otherwise, cleared
    when Offline and in [last_online_set], otherwise left alone. *)
Lemma game_since_after_tick env st uid :
  runs env →
  match snapshot_kind env uid with
  | Some OnlineActive => is_Some (game_since (tr_state (tick env st)) !! uid)
  | Some OnlineIdle => game_since (tr_state (tick env st)) !! uid = None
  | Some Offline =>
      game_since (tr_state (tick env st)) !! uid
      = if decide (uid ∈ last_online_set st) then None
        else game_since st !! uid
  | None => game_since (tr_state (tick env st)) !! uid = game_since st !! uid
  end.
Proof.
  intros Hr. unfold snapshot_kind.
  destruct (tick_tracker py env st Hr) as (_ & -> & _ & _).
  destruct (snapshot env uid) as [p|] eqn:Hs; simpl.
  - destruct (tracked_present env st uid p Hs) as (k & _ & Hv).
    unfold view, step_view in Hv.
    destruct (kind_of_cases p) as [[-> Hon]|[(-> & Hon & Ht)|(-> & Hon & Ht)]];
      rewrite Hon in Hv.
    + destruct (decide (uid ∈ last_online_set st)); by injection Hv.
    + rewrite decide_True in Hv by done. injection Hv as _ -> _ _. by eexists.
    + rewrite decide_False in Hv by done. by injection Hv.
  - pose proof (tracked_absent env st uid Hs) as Hv.
    unfold view in Hv. by injection Hv.
Qed.

(** Membership of [last_online_set] after a tick that runs. *)
Lemma last_online_after_tick env st uid :
  runs env →
  uid ∈ last_online_set (tr_state (tick env st))
  ↔ snapshot_kind env uid = Some OnlineIdle
    ∨ snapshot_kind env uid = Some OnlineActive.
Proof.
  intros Hr.
  destruct (tick_tracker py env st Hr) as (_ & _ & -> & _).
  rewrite tracked_current_iff.
  unfold appears_online, snapshot_kind.
  destruct (snapshot env uid) as [p|]; simpl; [|naive_solver].
  destruct (kind_of_cases p) as [[-> ->]|[(-> & -> & _)|(-> & -> & _)]];
    naive_solver.
Qed.

Lemma mirrors_tick env st uid acc :
  reported uid env → mirrors uid acc st →
  mirrors uid (last_kind [env] uid acc) (tr_state (tick env st)).
Proof.
  intros Hrep [Hgame Hlast]. simpl.
  destruct (runs_dec env) as [Hr|Hr]; last first.
  { destruct (tick_skipped py env st Hr) as [-> _].
    unfold runs in Hr.
    destruct (bot_closed env); [done|].
    destruct (channels_found env); [by destruct Hr|done]. }
  pose proof (game_since_after_tick env st uid Hr) as Hg.
  pose proof (last_online_after_tick env st uid Hr) as Hl.
  destruct (Hrep Hr) as [p Hp]. destruct Hr as [-> ->]. simpl.
  unfold mirrors. rewrite Hl. clear Hl.
  destruct (snapshot_kind env uid) as [[| |]|] eqn:Hk.
  - rewrite Hg. split; [|naive_solver].
    destruct (decide (uid ∈ last_online_set st)) as [Hin|Hnin].
    + split; [by intros [? ?]|done].
    + split; [|done]. intros Hsome. apply Hgame in Hsome. naive_solver.
  - rewrite Hg. split; [|naive_solver]. split; [by intros [? ?]|done].
  - split; [|naive_solver]. done.
  - unfold snapshot_kind in Hk. by rewrite Hp in Hk.
Qed.

Lemma run_state_cons env envs st :
  (run py (env :: envs) st).1
  = (run py envs (tr_state (tick env st))).1.
Proof. simpl. by destruct (run py envs _). Qed.

Lemma mirrors_run envs st uid acc :
  Forall (reported uid) envs → mirrors uid acc st →
  mirrors uid (last_kind envs uid acc) (run py envs st).1.
Proof.
  intros Hall. revert st acc.
  induction Hall as [|env envs Hrep _ IH]; intros st acc Hm; [done|].
  rewrite run_state_cons. cbn [last_kind]. apply IH.
  by apply (mirrors_tick env st uid acc Hrep) in Hm.
Qed.

(** An identity the presence response never leaves out meets no such
    tick. *)
Lemma reported_no_stale_offline envs st uid acc :
  Forall (reported uid) envs → mirrors uid acc st →
  no_stale_offline py uid envs st.
Proof.
  intros Hall. revert st acc.
  induction Hall as [|env envs Hrep _ IH]; intros st acc Hm; [done|].
  split.
  - intros (_ & _ & Hout & Hsome). destruct Hm as [Hgame Hlast].
    apply Hgame in Hsome. apply Hout, Hlast. by right.
  - apply (IH _ (last_kind [env] uid acc)). by apply mirrors_tick.
Qed.

(** One tick keeps [game_since] in step with the kind observed last,
    unless it is a tick that leaves a game timer behind. *)
Lemma active_since_step env st uid acc :
  (is_Some (game_since st !! uid) ↔ acc = Some OnlineActive) →
  (is_Some (game_since (tr_state (tick env st)) !! uid)
   ↔ last_kind [env] uid acc = Some OnlineActive)
  ↔ ¬ stale_offline uid env st.
Proof.
  intros Hgame. unfold stale_offline.
  destruct (runs_dec env) as [Hr|Hr]; last first.
  { destruct (tick_skipped py env st Hr) as [-> _].
    assert (last_kind [env] uid acc = acc) as ->.
    { unfold runs in Hr. simpl.
      destruct (bot_closed env); [done|].
      destruct (channels_found env); [by destruct Hr|done]. }
    split; [by intros _ [? _]|done]. }
  pose proof (game_since_after_tick env st uid Hr) as Hg.
  assert (last_kind [env] uid acc
          = match snapshot_kind env uid with Some k => Some k | None => acc end)
    as -> by (destruct Hr as [Hc Hf]; simpl; by rewrite Hc, Hf).
  destruct (snapshot_kind env uid) as [[| |]|] eqn:Hk.
  - rewrite Hg. destruct (decide (uid ∈ last_online_set st)) as [Hin|Hout].
    + split; [by intros _ (_ & _ & ? & _)|]. intros _.
      split; [by intros [? ?]|done].
    + split.
      * intros [Hsome _] (_ & _ & _ & Hs). by apply Hsome in Hs.
      * intros Hn. split; [|done]. intros Hs. destruct Hn. by auto.
  - rewrite Hg. split; [by intros _ (_ & ? & _)|]. intros _.
    split; [by intros [? ?]|done].
  - split; [by intros _ (_ & ? & _)|]. intros _. done.
  - rewrite Hg. split; [by intros _ (_ & ? & _)|]. by intros _.
Qed.

Lemma active_since_prefixes envs st uid acc :
  (∀ n, is_Some (game_since (run py (take n envs) st).1 !! uid)
        ↔ last_kind (take n envs) uid acc = Some OnlineActive)
  ↔ (is_Some (game_since st !! uid) ↔ acc = Some OnlineActive)
    ∧ no_stale_offline py uid envs st.
Proof.
  revert st acc. induction envs as [|env envs IH]; intros st acc.
  - split; [intros H; split; [apply (H 0%nat)|done]|].
    intros [H _] n. by rewrite take_nil.
  - cbn [no_stale_offline]. split.
    + intros H. pose proof (H 0%nat) as H0. cbn [take run fst last_kind] in H0.
      pose proof (H 1%nat) as H1. rewrite firstn_cons, take_0 in H1.
      rewrite run_state_cons in H1. cbn [run fst] in H1.
      split; [exact H0|]. split; [by apply (active_since_step env st uid acc)|].
      apply (IH _ (last_kind [env] uid acc)). intros n.
      specialize (H (S n)). rewrite firstn_cons, run_state_cons in H.
      exact H.
    + intros (H0 & Hstale & Hrest) [|n]; [exact H0|].
      rewrite firstn_cons, run_state_cons.
      apply (active_since_step env st uid acc H0) in Hstale.
      apply (IH _ (last_kind [env] uid acc)). by split.
Qed.

(** C6. From the start of the process, [game_since] has the identity
    exactly when the kind observed last for it is OnlineActive, after
    every tick of a run, if and only if no tick of the run reports the
    identity Offline while it has a game timer and is outside
    [last_online_set]; such a tick leaves the timer in place although the
    kind observed last is then Offline.  In any state, a tick that
    observes OnlineIdle leaves [game_since] without the identity, so a
    timer set while in a game is cleared in the very tick the kind
    reverts. *)
Theorem active_since_mirrors_unless_stale (envs : list tick_env) (uid : Z)
    (file : option Z) (start : Z) :
  ((∀ n, is_Some (game_since
                    (run py (take n envs) (initial_state file start)).1 !! uid)
         ↔ last_kind (take n envs) uid None = Some OnlineActive)
   ↔ no_stale_offline py uid envs (initial_state file start))
  ∧ (∀ env st, stale_offline uid env st →
       is_Some (game_since (tr_state (tick env st)) !! uid)
       ∧ last_kind [env] uid None = Some Offline)
  ∧ ∀ env st, runs env → snapshot_kind env uid = Some OnlineIdle →
      game_since (tr_state (tick env st)) !! uid = None.
Proof.
  split; [|split].
  - rewrite active_since_prefixes. split; [by intros [_ ?]|].
    intros H. split; [|done]. simpl. rewrite lookup_empty.
    split; [by intros [? ?]|done].
  - intros env st (Hr & Hk & Hout & Hsome).
    pose proof (game_since_after_tick env st uid Hr) as Hg.
    rewrite Hk, decide_False in Hg by done. rewrite Hg. split; [done|].
    destruct Hr as [Hc Hf]. simpl. by rewrite Hc, Hf, Hk.
  - intros env st Hr Hk.
    pose proof (game_since_after_tick env st uid Hr) as Hg.
    by rewrite Hk in Hg.
Qed.

End ActiveSinceClaims.

(** Alice comes late: she is missing from the first response, then in a
    game, then missing again, then idle.  No tick leaves a game timer
    behind, and after the four ticks she has no game timer. *)
Lemma active_since_witness :
  let envs := [Examples.tick_missing; Examples.tick_in_game;
               Examples.tick_missing; Examples.tick_idle] in
  Tick.no_stale_offline Examples.plain_lib Examples.alice envs Examples.fresh
  ∧ (is_Some
       (game_since (Tick.run Examples.plain_lib envs Examples.fresh).1
        !! Examples.alice)
     ↔ Tick.last_kind envs Examples.alice None = Some Tick.OnlineActive)
  ∧ Tick.last_kind envs Examples.alice None = Some Tick.OnlineIdle.
Proof.
  intros envs.
  destruct (active_since_mirrors_unless_stale Examples.plain_lib envs
              Examples.alice None 0) as [[_ Hmirror] _].
  assert (Tick.no_stale_offline Examples.plain_lib Examples.alice envs
            Examples.fresh) as Hno.
  { repeat split; intros (_ & Hk & _); vm_compute in Hk; discriminate Hk. }
  split; [exact Hno|]. split; [|reflexivity].
  exact (Hmirror Hno 4%nat).
Defined.

(** C6 as stated fails: Alice in a game, then missing from the response,
    then reported Offline, keeps her [game_since] timer although the kind
    observed last is Offline. *)
Lemma active_since_mirrors_last_kind_fails :
  ¬ Tick.active_since_mirrors_last_kind.
Proof.
  intros H.
  pose proof (H Examples.plain_lib
                [Examples.tick_in_game; Examples.tick_missing;
                 Examples.tick_offline]
                Examples.alice None 0) as H'.
  clear H. cbv zeta in H'. destruct H' as [Hkind _].
  match type of Hkind with
  | ?P → _ => assert P as Hsome by (vm_compute; eexists; reflexivity)
  end.
  apply Hkind in Hsome. vm_compute in Hsome. discriminate Hsome.
Qed.

(** * The claim on the publisher *)
Section PublisherClaims.

Import Publisher.

Lemma try_edit_outcome e id content :
  (try_edit e id content).1 = first_failure e.
Proof. unfold try_edit, first_failure. by destruct (fetch_outcome e). Qed.

Lemma try_edit_no_send e id content :
  sends (try_edit e id content).2 = 0%nat
  ∧ writes (try_edit e id content).2 = 0%nat.
Proof. unfold try_edit. by destruct (fetch_outcome e). Qed.

Lemma sends_app acts1 acts2 :
  sends (acts1 ++ acts2) = (sends acts1 + sends acts2)%nat.
Proof. unfold sends. by rewrite List.filter_app, length_app. Qed.

Lemma writes_app acts1 acts2 :
  writes (acts1 ++ acts2) = (writes acts1 + writes acts2)%nat.
Proof. unfold writes. by rewrite List.filter_app, length_app. Qed.

(** [persist] keeps the handle it is given, sends nothing, writes the
    file once, and the file holds the handle unless the write fails. *)
Lemma persist_spec e handle file acts :
  persist e handle file acts
  = (handle, file_after (write e) handle file None,
     acts ++ [WriteState handle]
          ++ match write e with Written => [] | _ => [LogWarning] end).
Proof. unfold persist. by destruct (write e). Qed.

(** C8. The publisher, case by case.  Without a handle it asks for one
    new message; with a handle whose message is gone ([NotFound] from the
    fetch or the edit) it asks for one replacement: in both cases, when the
    channel creates the message the handle becomes its id and [state.json]
    is rewritten once, holding that id unless the write fails (the file
    then is as it was if it could not be opened, and gives no handle if the
    write failed after it was opened), and when the channel refuses, handle
    and file stay as they were.  With a handle and
    any other failure of the edit it creates no message, logs a warning and
    keeps the handle.  With a handle and a successful edit it creates no
    message and keeps the handle. *)
Theorem publisher_cases (e : pub_env) (content : string)
    (handle file : option Z) :
  let '(handle', file', acts) := publish e content handle file in
  let created :=
    match send_outcome e with
    | Some sent_id =>
        handle' = Some sent_id ∧ writes acts = 1%nat
        ∧ file' = file_after (write e) (Some sent_id) file None
    | None => handle' = handle ∧ writes acts = 0%nat ∧ file' = file
    end in
  match has_handle handle with
  | None => sends acts = 1%nat ∧ created
  | Some id =>
      match first_failure e with
      | NotFound => sends acts = 1%nat ∧ created
      | Forbidden | OtherError =>
          sends acts = 0%nat ∧ handle' = handle ∧ LogWarning ∈ acts
          ∧ file' = file_after (write e) handle file None
      | CallOk => sends acts = 0%nat ∧ handle' = handle
      end
  end.
Proof.
  unfold publish.
  destruct (has_handle handle) as [id|].
  - pose proof (try_edit_outcome e id content) as Ho.
    pose proof (try_edit_no_send e id content) as [Hs Hw].
    destruct (try_edit e id content) as [o acts0]. simpl in Ho, Hs, Hw.
    subst o. destruct (first_failure e).
    + rewrite persist_spec. rewrite sends_app, Hs. by destruct (write e).
    + destruct (send_outcome e) as [sent_id|].
      * rewrite persist_spec. rewrite !sends_app, !writes_app, Hs, Hw.
        by destruct (write e).
      * by rewrite !sends_app, !writes_app, Hs, Hw.
    + rewrite persist_spec. rewrite !sends_app, Hs.
      split; [by destruct (write e)|]. split; [done|]. split; [|done].
      rewrite !elem_of_app. left. right. apply list_elem_of_here.
    + rewrite persist_spec. rewrite !sends_app, Hs.
      split; [by destruct (write e)|]. split; [done|]. split; [|done].
      rewrite !elem_of_app. left. right. apply list_elem_of_here.
  - destruct (send_outcome e) as [sent_id|]; [|done].
    rewrite persist_spec. by destruct (write e).
Qed.

(** First publish without a handle, then an edit that finds the message
    gone: one message each time, and the file follows the handle. *)
Lemma publisher_first_then_replaced :
  publish Examples.channel_ok "box" None None
  = (Some 77, Some 77, [SendMessage "box"; WriteState (Some 77)])
  ∧ publish Examples.channel_message_gone "box" (Some 77) (Some 77)
    = (Some 78, Some 78,
       [FetchMessage 77; SendMessage "box"; WriteState (Some 78)]).
Proof. split; reflexivity. Qed.

End PublisherClaims.

(** * The claim on the restart coordinator *)
Section RestartClaims.

Import Restart.

(** A check whose elapsed time is from 300 down to 296 seconds short of
    the restart interval sends the warning. *)
Lemma warning_in_window start now :
  RESTART_INTERVAL - 300 ≤ Renderer.elapsed_seconds start now
                         < RESTART_INTERVAL - 295 →
  auto_restart_check start now true true = [SendWarning].
Proof.
  intros Hw. unfold auto_restart_check.
  rewrite decide_True by lia. simpl.
  rewrite decide_False; [done|]. unfold RESTART_INTERVAL in *. lia.
Qed.

(** Outside that window no check sends the warning. *)
Lemma no_warning_outside_window start now ch send_ok :
  ¬ (RESTART_INTERVAL - 300 ≤ Renderer.elapsed_seconds start now
                            < RESTART_INTERVAL - 295) →
  warnings (auto_restart_check start now ch send_ok) = 0%nat.
Proof.
  intros Hw. unfold auto_restart_check.
  rewrite decide_False by lia. simpl.
  destruct (decide _); [|done]. by destruct ch, send_ok.
Qed.

(** C3. The warning is not a single event: the five checks made one second
    apart from 300 seconds before the restart is due each send it. *)
Theorem restart_warning_repeats :
  checks 0 Examples.warning_window true true
  = [SendWarning; SendWarning; SendWarning; SendWarning; SendWarning]
  ∧ warnings (checks 0 Examples.warning_window true true) = 5%nat.
Proof. split; reflexivity. Qed.

End RestartClaims.

(** * The claim on the status renderer *)
Section RendererClaims.

Import Tracker Renderer Tick.

Lemma ascii_compare_cases (x y : ascii) :
  (Ascii.compare x y = Eq ∧ N_of_ascii x = N_of_ascii y)
  ∨ (Ascii.compare x y = Lt ∧ (N_of_ascii x < N_of_ascii y)%N)
  ∨ (Ascii.compare x y = Gt ∧ (N_of_ascii y < N_of_ascii x)%N).
Proof.
  unfold Ascii.compare.
  destruct (N.compare_spec (N_of_ascii x) (N_of_ascii y)); auto.
Qed.

Lemma string_leb_trans (a b c : string) :
  String.leb a b = true → String.leb b c = true → String.leb a c = true.
Proof.
  revert b c. induction a as [|x a IH]; intros [|y b] [|z c];
    unfold String.leb; simpl; try done.
  specialize (IH b c). unfold String.leb in IH.
  destruct (ascii_compare_cases x y) as [[-> Hxy]|[[-> Hxy]|[-> Hxy]]];
    destruct (ascii_compare_cases y z) as [[-> Hyz]|[[-> Hyz]|[-> Hyz]]];
    destruct (ascii_compare_cases x z) as [[-> Hxz]|[[-> Hxz]|[-> Hxz]]];
    try done; try lia.
Qed.

Lemma string_leb_false_flip (a b : string) :
  String.leb a b = false → String.leb b a = true.
Proof.
  intros Hf. destruct (String.leb_total a b) as [Ht|Ht]; [congruence|done].
Qed.

Lemma insert_by_perm {A} (key : A → string) (x : A) (l : list A) :
  insert_by key x l ≡ₚ x :: l.
Proof.
  induction l as [|y l IH]; simpl; [done|].
  destruct (String.leb (key x) (key y)); [done|].
  rewrite IH. apply Permutation_swap.
Qed.

Lemma sort_by_perm {A} (key : A → string) (l : list A) :
  sort_by key l ≡ₚ l.
Proof.
  induction l as [|x l IH]; simpl; [done|].
  fold (sort_by key l). by rewrite insert_by_perm, IH.
Qed.

Lemma insert_by_sorted {A} (key : A → string) (x : A) (l : list A) :
  StronglySorted (key_le key) l →
  StronglySorted (key_le key) (insert_by key x l).
Proof.
  induction 1 as [|y l Hl IH Hy]; simpl.
  - apply SSorted_cons; [apply SSorted_nil|apply Forall_nil_2].
  - destruct (String.leb (key x) (key y)) eqn:Hxy.
    + apply SSorted_cons; [by apply SSorted_cons|].
      apply Forall_cons. split; [done|].
      eapply Forall_impl; [exact Hy|]. intros z Hz.
      by apply (string_leb_trans _ (key y)).
    + apply SSorted_cons; [done|].
      rewrite insert_by_perm. apply Forall_cons. split; [|done].
      by apply string_leb_false_flip.
Qed.

Lemma sort_by_sorted {A} (key : A → string) (l : list A) :
  StronglySorted (key_le key) (sort_by key l).
Proof.
  induction l as [|x l IH]; simpl; [apply SSorted_nil|].
  by apply insert_by_sorted.
Qed.

Lemma string_leb_refl (a : string) : String.leb a a = true.
Proof. destruct (String.leb_total a a); done. Qed.

(** The sort is stable: the elements with a given key come out in the
    order they went in. *)
Lemma insert_by_stable {A} (key : A → string) (k : string) (x : A)
    (l : list A) :
  List.filter (λ y, String.eqb (key y) k) (insert_by key x l)
  = List.filter (λ y, String.eqb (key y) k) (x :: l).
Proof.
  induction l as [|y l IH]; [done|].
  cbn [insert_by]. destruct (String.leb (key x) (key y)) eqn:Hxy; [done|].
  cbn [List.filter] in *. rewrite IH.
  destruct (String.eqb (key x) k) eqn:Hx; [|done].
  destruct (String.eqb (key y) k) eqn:Hy; [|done].
  apply String.eqb_eq in Hx, Hy.
  rewrite Hx, Hy, string_leb_refl in Hxy. discriminate.
Qed.

Lemma sort_by_stable {A} (key : A → string) (k : string) (l : list A) :
  List.filter (λ y, String.eqb (key y) k) (sort_by key l)
  = List.filter (λ y, String.eqb (key y) k) l.
Proof.
  induction l as [|x l IH]; [done|].
  cbn [sort_by foldr]. fold (sort_by key l).
  rewrite insert_by_stable. cbn [List.filter]. by rewrite IH.
Qed.

(** The text a tick hands to the publisher is the rendering of that
    tick's records, the process start time and one clock reading. *)
Lemma tick_publishes_render py env st :
  runs env →
  tr_actions (update_status_message py env st)
  = (Publisher.publish (pub env)
       ("```" +:+ status_text py env st +:+ "```")
       (status_message_id st) (state_file st)).2.
Proof.
  intros [Hc Hf]. unfold update_status_message. rewrite Hc, Hf. simpl.
  unfold status_text, render_time. fold (tracked env st).
  by destruct (Publisher.publish _ _ _ _) as [[h f] acts].
Qed.

(** Replacing elements by others with the same keys does not change
    where the sort puts them. *)
Lemma insert_by_fmap {A} (key : A → string) (f : A → A) (x : A)
    (l : list A) :
  key (f x) = key x → Forall (λ y, key (f y) = key y) l →
  insert_by key (f x) (f <$> l) = f <$> insert_by key x l.
Proof.
  intros Hx. induction 1 as [|y l Hy Hl IH]; [done|].
  cbn [insert_by fmap list_fmap]. rewrite Hx, Hy.
  destruct (String.leb (key x) (key y)); [done|].
  cbn [fmap list_fmap]. f_equal. exact IH.
Qed.

Lemma sort_by_fmap {A} (key : A → string) (f : A → A) (l : list A) :
  Forall (λ y, key (f y) = key y) l →
  sort_by key (f <$> l) = f <$> sort_by key l.
Proof.
  induction 1 as [|x l Hx Hl IH]; [done|].
  cbn [sort_by foldr fmap list_fmap].
  fold (sort_by key (f <$> l)). fold (sort_by key l). rewrite IH.
  apply insert_by_fmap; [done|].
  apply Forall_forall. intros y Hy. rewrite sort_by_perm in Hy.
  by apply (proj1 (Forall_forall _ _) Hl).
Qed.

(** C9. Two renderings from identical records, start time and current
    time give the same text, and two ticks whose records, start time and
    clock reading for the box agree hand the same text to the publisher,
    whatever else differs between them.  The text is the header followed
    by one numbered entry for each record, in sorted order, or by the
    placeholder line when there is no record.  The sorted order holds the
    records given, no more and no fewer; the names lower-cased by
    [str.lower] ascend along it; records whose lower-cased names are equal
    keep their input order; and changing the case of letters in the names
    (any change that keeps the lower-cased names) changes the position of
    no record. *)
Theorem render_deterministic_sorted (py : Renderer.pylib)
    (lines1 lines2 : list display_line) (start1 start2 now1 now2 : Z) :
  lines1 = lines2 → start1 = start2 → now1 = now2 →
  let key := λ x : display_line, str_lower py (dl_name x) in
  let entry := λ (i : nat) (x : display_line),
    pretty (S i) +:+ ". **" +:+ dl_name x +:+ "**" +:+ nl
    +:+ "   🕒 Online: " +:+ dl_online x +:+ nl
    +:+ "   🎯 Game: " +:+ dl_location x +:+ nl
    +:+ "   ⌛ Waktu Bermain: " +:+ dl_game x +:+ nl +:+ nl in
  let sorted := sort_display_lines py lines1 in
  render py lines1 start1 now1 = render py lines2 start2 now2
  ∧ (∀ env1 st1 env2 st2,
       ls_display_lines (tracked env1 st1) = ls_display_lines (tracked env2 st2) →
       START_TIME st1 = START_TIME st2 →
       render_time env1 st1 = render_time env2 st2 →
       status_text py env1 st1 = status_text py env2 st2)
  ∧ render py lines1 start1 now1
    = status_header py (length lines1) start1 now1
      +:+ match lines1 with
          | [] => "_Tidak ada teman online_" +:+ nl
          | _ => foldr String.append "" (imap entry sorted)
          end
  ∧ sorted ≡ₚ lines1
  ∧ StronglySorted (key_le key) sorted
  ∧ (∀ k, List.filter (λ x, String.eqb (key x) k) sorted
          = List.filter (λ x, String.eqb (key x) k) lines1)
  ∧ (∀ f : display_line → display_line,
       Forall (λ x, key (f x) = key x) lines1 →
       sort_display_lines py (f <$> lines1) = f <$> sorted).
Proof.
  intros -> -> -> key entry sorted.
  assert (sorted ≡ₚ lines2) as Hperm by apply sort_by_perm.
  split; [done|]. split; [|split; [|split; [done|split; [|split]]]].
  - intros env1 st1 env2 st2 Hl Hs Ht. unfold status_text.
    by rewrite Hl, Hs, Ht.
  - unfold render, status_box. fold sorted.
    rewrite (Permutation_length Hperm). f_equal.
    unfold friends_text. destruct lines2 as [|x l].
    + apply Permutation_nil_r in Hperm. by rewrite Hperm.
    + destruct sorted as [|y l']; [|done].
      symmetry in Hperm. by apply Permutation_nil_r in Hperm.
  - apply (sort_by_sorted (sort_key py)).
  - intros k. apply (sort_by_stable (sort_key py)).
  - intros f Hf. apply (sort_by_fmap (sort_key py)). exact Hf.
Qed.

End RendererClaims.

(** Four names, two of which differ in case only: they stay in input
    order between the others, and writing all four in lower case moves
    none of them. *)
Lemma render_sorted_witness :
  let lines := Examples.line_of <$> ["bob"; "Carl"; "alice"; "Bob"] in
  let lowered := λ x : Tracker.display_line,
    Examples.line_of (Examples.ascii_lower (Tracker.dl_name x)) in
  Tracker.dl_name <$> Renderer.sort_display_lines Examples.plain_lib lines
  = ["alice"; "bob"; "Bob"; "Carl"]
  ∧ StronglySorted
      (Renderer.key_le (λ x, Examples.ascii_lower (Tracker.dl_name x)))
      (Renderer.sort_display_lines Examples.plain_lib lines)
  ∧ Renderer.sort_display_lines Examples.plain_lib lines ≡ₚ lines
  ∧ Renderer.sort_display_lines Examples.plain_lib (lowered <$> lines)
    = lowered <$> Renderer.sort_display_lines Examples.plain_lib lines.
Proof.
  intros lines lowered.
  destruct (render_deterministic_sorted Examples.plain_lib lines lines
              0 0 (Examples.seconds 5) (Examples.seconds 5)
              eq_refl eq_refl eq_refl)
    as (_ & _ & _ & Hperm & Hsorted & _ & Hcase).
  split; [reflexivity|]. split; [exact Hsorted|]. split; [exact Hperm|].
  apply (Hcase lowered). repeat constructor.
Defined.

(** * Further properties of the fetchers *)
Section FetcherExtras.

Import Fetcher.

Lemma chunked_lookup {A} (l : list A) (n i : nat) (c : list A) :
  chunked l n !! i = Some c →
  c = take n (drop (i * n) l) ∧ (i < (length l + n - 1) / n)%nat.
Proof.
  unfold chunked, range_step. rewrite <- list_fmap_compose.
  intros (j & -> & Hj)%list_lookup_fmap_Some.
  apply lookup_seq in Hj as [-> Hlt]. simpl. split; [|done].
  unfold slice. f_equal. lia.
Qed.

Lemma chunked_length {A} (l : list A) (n : nat) :
  length (chunked l n) = ((length l + n - 1) / n)%nat.
Proof.
  unfold chunked, range_step. by rewrite !length_fmap, length_seq.
Qed.

(** X1. For a positive batch size, [chunked] cuts its argument into
    [ceil(len / n)] consecutive pieces that give back the argument when
    glued together; every piece has between 1 and [n] elements, and every
    piece but the last has exactly [n]. *)
Theorem chunked_partition {A} (l : list A) (n : nat) :
  (0 < n)%nat →
  concat (chunked l n) = l
  ∧ length (chunked l n) = ((length l + n - 1) / n)%nat
  ∧ Forall (λ c, (0 < length c ≤ n)%nat) (chunked l n)
  ∧ ∀ i c, chunked l n !! i = Some c → (S i < length (chunked l n))%nat →
           length c = n.
Proof.
  intros Hn. split; [by apply chunked_concat|].
  split; [apply chunked_length|]. split.
  - pose proof (chunked_length_le l n) as Hle.
    pose proof (chunked_nonempty l n Hn) as Hne.
    rewrite Forall_forall in Hle, Hne. apply Forall_forall. intros c Hc.
    specialize (Hle c Hc). specialize (Hne c Hc).
    destruct c; [done|]. simpl in *. lia.
  - intros i c Hc Hlast. rewrite chunked_length in Hlast.
    apply chunked_lookup in Hc as [-> _].
    rewrite length_take, length_drop.
    pose proof (Nat.div_mod_eq (length l + n - 1) n) as Hdm.
    pose proof (Nat.mod_upper_bound (length l + n - 1) n) as Hmod.
    nia.
Qed.

Lemma successes_imap up k chunks :
  successes up k chunks
  = concat (imap (λ j chunk,
                    if decide (status (up (k + j)%nat chunk) = 200)
                    then userPresences (up (k + j)%nat chunk) else [])
                 chunks).
Proof.
  revert k. induction chunks as [|chunk rest IH]; intros k; [done|].
  cbn [successes]. rewrite imap_cons, concat_cons. cbn beta.
  rewrite Nat.add_0_r. f_equal. rewrite IH. f_equal.
  apply imap_ext. intros j c _. unfold compose.
  by replace (k + S j)%nat with (S k + j)%nat by lia.
Qed.

(** X2. The loop of [get_presences], run over any list of chunks, posts
    every chunk exactly once and in order, whatever the answers are, and
    returns the presences of the chunks answered with status 200, in chunk
    order; a chunk answered otherwise contributes nothing and does not
    stop the loop. *)
Theorem presence_loop_keeps_going (up : upstream) (chunks : list (list Z)) :
  (presence_loop up 0 chunks [] []).2 = chunks
  ∧ (presence_loop up 0 chunks [] []).1
    = concat (imap (λ k chunk,
                      if decide (status (up k chunk) = 200)
                      then userPresences (up k chunk) else [])
                   chunks).
Proof.
  rewrite presence_loop_spec. simpl. split; [done|].
  by rewrite successes_imap.
Qed.

End FetcherExtras.

(** The three chunks of 250 ids. *)
Lemma chunked_partition_witness :
  let l := Z.of_nat <$> seq 0 250 in
  concat (Fetcher.chunked l 100) = l
  ∧ length (Fetcher.chunked l 100) = ((length l + 100 - 1) / 100)%nat
  ∧ Forall (λ c, (0 < length c ≤ 100)%nat) (Fetcher.chunked l 100)
  ∧ ∀ i c, Fetcher.chunked l 100 !! i = Some c →
           (S i < length (Fetcher.chunked l 100))%nat → length c = 100%nat.
Proof.
  apply (chunked_partition (Z.of_nat <$> seq 0 250) 100). lia.
Defined.

(** * Properties of the friends list and of the user names *)
Section LookupExtras.

Import Fetcher Friends Usernames Commands Acquire.

Lemma friends_loop_walk fuel api k cursor acc :
  match friends_loop fuel api k cursor acc with
  | Some l =>
      (Exists (λ p, fp_status p ≠ 200) (walk fuel api k cursor) ∧ l = [])
      ∨ (Forall (λ p, fp_status p = 200) (walk fuel api k cursor)
         ∧ l = acc ++ concat (fp_ids <$> walk fuel api k cursor))
  | None =>
      length (walk fuel api k cursor) = fuel
      ∧ Forall (λ p, fp_status p = 200 ∧ is_Some (truthy (fp_next p)))
          (walk fuel api k cursor)
  end.
Proof.
  revert k cursor acc. induction fuel as [|fuel IH]; intros k cursor acc.
  { simpl. split; [done|apply Forall_nil_2]. }
  cbn [friends_loop walk].
  destruct (decide (fp_status (api k (truthy cursor)) ≠ 200)) as [Hbad|Hok].
  { left. split; [|done]. by apply Exists_cons_hd. }
  assert (fp_status (api k (truthy cursor)) = 200) as Hok'
    by (destruct (decide (fp_status (api k (truthy cursor)) = 200)); done).
  destruct (truthy (fp_next (api k (truthy cursor)))) as [c|] eqn:Hnext.
  - specialize (IH (S k) (Some c) (acc ++ fp_ids (api k (truthy cursor)))).
    destruct (friends_loop fuel api (S k) (Some c) _) as [l|].
    + destruct IH as [[Hex ->]|[Hall ->]].
      * left. split; [|done]. by apply Exists_cons_tl.
      * right. split; [by apply Forall_cons|].
        rewrite fmap_cons, concat_cons. by rewrite <- app_assoc.
    + destruct IH as [Hlen Hall]. split; [by rewrite length_cons, Hlen|].
      apply Forall_cons. split; [|done]. by rewrite Hnext.
  - right. split; [by apply Forall_singleton|].
    simpl. by rewrite app_nil_r.
Qed.

(** X3. [get_friends_list] is all or nothing.  Over the pages it walks
    through, if one answers with a status other than 200 the result is the
    empty list, whatever the earlier pages held; if all answer 200 the
    result is the ids of all of them, in order; and if it has not returned
    after [fuel] GETs, each of these pages answered 200 and named a next
    cursor. *)
Theorem get_friends_list_all_or_nothing (fuel : nat) (api : friends_api) :
  match get_friends_list fuel api with
  | Some l =>
      (Exists (λ p, fp_status p ≠ 200) (walk fuel api 0 None) ∧ l = [])
      ∨ (Forall (λ p, fp_status p = 200) (walk fuel api 0 None)
         ∧ l = concat (fp_ids <$> walk fuel api 0 None))
  | None =>
      length (walk fuel api 0 None) = fuel
      ∧ Forall (λ p, fp_status p = 200 ∧ is_Some (truthy (fp_next p)))
          (walk fuel api 0 None)
  end.
Proof. apply (friends_loop_walk fuel api 0 None []). Qed.

Lemma friends_loop_endless api :
  (∀ k c, fp_status (api k c) = 200 ∧ is_Some (truthy (fp_next (api k c)))) →
  ∀ fuel k cursor acc, friends_loop fuel api k cursor acc = None.
Proof.
  intros Hapi. induction fuel as [|fuel IH]; intros k cursor acc; [done|].
  cbn [friends_loop]. destruct (Hapi k (truthy cursor)) as [Hok [c Hc]].
  rewrite decide_False by (by intros []). rewrite Hc. apply IH.
Qed.

(** X4. The friends loop has no page limit: against an upstream that
    answers every GET with status 200 and a non-empty next cursor, it has
    not returned after any number of GETs. *)
Theorem get_friends_list_endless (api : friends_api) :
  (∀ k c, fp_status (api k c) = 200 ∧ is_Some (truthy (fp_next (api k c)))) →
  ∀ fuel, get_friends_list fuel api = None.
Proof. intros Hapi fuel. by apply friends_loop_endless. Qed.

Lemma pretty_N_go_nonempty (x : N) (s : string) :
  s ≠ "" → pretty_N_go x s ≠ "".
Proof.
  revert s. induction (N.lt_wf_0 x) as [x _ IH]; intros s Hs.
  assert (x = 0 ∨ 0 < x)%N as [->|Hpos] by lia.
  - by rewrite pretty_N_go_0.
  - rewrite pretty_N_go_step by done. apply IH; [by apply N.div_lt|done].
Qed.

Lemma pretty_N_nonempty (x : N) : pretty x ≠ "".
Proof.
  unfold pretty, pretty_N. case_decide as Hx; [done|].
  rewrite pretty_N_go_step by lia. by apply pretty_N_go_nonempty.
Qed.

(** [str(n)] of an integer is never empty. *)
Lemma pretty_Z_nonempty (x : Z) : pretty x ≠ "".
Proof.
  unfold pretty, pretty_Z. destruct x as [|p|p]; [done| |done].
  apply (pretty_N_nonempty (Npos p)).
Qed.

Lemma or_else_nonempty a b : b ≠ "" → or_else a b ≠ "".
Proof.
  intros Hb. unfold or_else. destruct a as [s|]; [|done]. by case_decide.
Qed.

Lemma label_nonempty u : label u ≠ "".
Proof.
  unfold label. apply or_else_nonempty, or_else_nonempty, pretty_Z_nonempty.
Qed.

Lemma add_users_nonempty res data :
  map_Forall (λ _ n, n ≠ "") res →
  map_Forall (λ _ n, n ≠ "") (add_users res data).
Proof.
  unfold add_users. revert res.
  induction data as [|u data IH]; intros res Hres; [done|]. simpl.
  apply IH. apply map_Forall_insert_2; [apply label_nonempty|done].
Qed.

Lemma usernames_loop_nonempty api k chunks res :
  map_Forall (λ _ n, n ≠ "") res →
  map_Forall (λ _ n, n ≠ "") (usernames_loop api k chunks res).
Proof.
  revert k res. induction chunks as [|chunk rest IH]; intros k res Hres;
    [done|].
  cbn [usernames_loop]. case_decide; apply IH; [done|].
  by apply add_users_nonempty.
Qed.

(** X5. Whatever the users API answers, no name the loop of
    [get_usernames] stores is the empty string: a missing or empty [name]
    falls back to [displayName], and a missing or empty [displayName] to
    the decimal id. *)
Theorem usernames_never_empty (api : users_api) (k : nat)
    (chunks : list (list Z)) :
  map_Forall (λ _ name, name ≠ "") (usernames_loop api k chunks ∅).
Proof. apply usernames_loop_nonempty, map_Forall_empty. Qed.

(** X6. As written, the fetching part of a tick (lines 180-194) gets
    through only when nothing is monitored: once the friends list is
    there, it ends with empty presences and an empty name map if the
    monitored set is empty, and with [TypeError] otherwise, whatever the
    presence and users APIs would answer. *)
Theorem acquire_only_when_idle (fuel : nat) (fapi : friends_api)
    (up : upstream) (uapi : users_api) (manual : list Z) (own : option Z) :
  acquire fuel fapi up uapi manual own
  = match get_friends_list fuel fapi with
    | None => None
    | Some friends =>
        Some (if decide (monitored friends manual own = ∅)
              then Ok ([], ∅) else Raise TypeError)
    end.
Proof.
  unfold acquire. destruct (get_friends_list fuel fapi) as [friends|]; [|done].
  f_equal. destruct (decide (monitored friends manual own = ∅)) as [->|Hne].
  - by rewrite elements_empty.
  - destruct (elements (monitored friends manual own)) as [|uid uids] eqn:He;
      [|done].
    by apply elements_empty_inv, leibniz_equiv in He.
Qed.

End LookupExtras.

(** An upstream that always names a next page: no result after a
    thousand GETs. *)
Lemma get_friends_list_endless_witness :
  Friends.get_friends_list 1000
    (λ _ _, Friends.FriendsPage 200 [7] (Some "next")) = None.
Proof.
  apply (get_friends_list_endless
           (λ _ _, Friends.FriendsPage 200 [7] (Some "next"))).
  intros k c. split; [reflexivity|]. by eexists.
Defined.

(** * Properties of the allow-list commands *)
Section CommandExtras.

Import Commands.

Lemma py_remove_None x l : py_remove x l = None ↔ x ∉ l.
Proof.
  induction l as [|y l IH]; cbn [py_remove].
  - split; [intros _; apply not_elem_of_nil|done].
  - destruct (decide (x = y)) as [->|Hne].
    + split; [done|]. intros []. apply list_elem_of_here.
    + rewrite not_elem_of_cons. destruct (py_remove x l); [|tauto].
      split; [done|]. intros [_ Hnin]. by apply IH in Hnin.
Qed.

Lemma py_remove_app_last x l : x ∉ l → py_remove x (l ++ [x]) = Some l.
Proof.
  induction l as [|y l IH]; intros Hnin; cbn [py_remove app].
  - by rewrite decide_True.
  - apply not_elem_of_cons in Hnin as [Hne Hnin].
    rewrite decide_False by done. by rewrite IH.
Qed.

Lemma py_remove_count x l r y :
  py_remove x l = Some r →
  count_occ Z.eq_dec r y
  = if decide (y = x) then pred (count_occ Z.eq_dec l y)
    else count_occ Z.eq_dec l y.
Proof.
  revert r. induction l as [|z l IH]; intros r; cbn [py_remove]; [done|].
  destruct (decide (x = z)) as [Hxz|Hxz].
  - intros [= <-]. cbn [count_occ]. subst z.
    destruct (Z.eq_dec x y) as [Hxy|Hxy]; destruct (decide (y = x)) as [Hyx|Hyx];
      congruence || done.
  - destruct (py_remove x l) as [r'|]; [|done]. intros [= <-].
    specialize (IH r' eq_refl). cbn [count_occ]. rewrite IH.
    destruct (Z.eq_dec z y) as [Hzy|Hzy]; destruct (decide (y = x)) as [Hyx|Hyx];
      congruence || done.
Qed.

Lemma py_remove_elem x l r y :
  py_remove x l = Some r → y ∈ r → y ∈ l.
Proof.
  revert r. induction l as [|z l IH]; intros r; cbn [py_remove]; [done|].
  destruct (decide (x = z)) as [->|Hne].
  - intros [= ->] Hy. by apply list_elem_of_further.
  - destruct (py_remove x l) as [r'|]; [|done]. intros [= <-] Hy.
    apply elem_of_cons in Hy as [->|Hy]; [apply list_elem_of_here|].
    apply list_elem_of_further. by apply (IH r').
Qed.

Lemma py_remove_NoDup x l r :
  py_remove x l = Some r → NoDup l → NoDup r ∧ x ∉ r.
Proof.
  revert r. induction l as [|z l IH]; intros r; cbn [py_remove]; [done|].
  intros Hr Hnd. apply NoDup_cons in Hnd as [Hz Hnd].
  destruct (decide (x = z)) as [->|Hne].
  - injection Hr as <-. done.
  - destruct (py_remove x l) as [r'|] eqn:Hrem; [|done]. injection Hr as <-.
    destruct (IH r' eq_refl Hnd) as [Hnd' Hx]. split.
    + apply NoDup_cons. split; [|done].
      intros Hin. apply Hz. by apply (py_remove_elem x l r').
    + rewrite not_elem_of_cons. done.
Qed.

(** X7. Adding an id that is not tracked and removing it again gives back
    the list as it was, with [players.json] holding that list. *)
Theorem add_then_hapus_round_trip (user_id : Z) (s : tracked) :
  user_id ∉ manual_tracked s →
  cmd_hapus true Written user_id (cmd_add true Written user_id s).1
  = (Tracked (manual_tracked s) (manual_tracked s), Removed user_id).
Proof.
  intros Hnin. unfold cmd_add, cmd_hapus. simpl.
  rewrite decide_False by done. simpl.
  by rewrite py_remove_app_last.
Qed.

(** X8. The commands keep a duplicate-free list duplicate-free, whoever
    calls them and however the write of the file ends; and after
    [hapus] by an administrator the id is no longer in such a list. *)
Theorem commands_keep_no_duplicates (administrator : bool)
    (write : write_outcome) (user_id : Z) (s : tracked) :
  NoDup (manual_tracked s) →
  NoDup (manual_tracked (cmd_add administrator write user_id s).1)
  ∧ NoDup (manual_tracked (cmd_hapus administrator write user_id s).1)
  ∧ user_id ∉ manual_tracked (cmd_hapus true write user_id s).1.
Proof.
  intros Hnd. split; [|split].
  - unfold cmd_add. destruct administrator; [|done]. simpl.
    destruct (decide (user_id ∈ manual_tracked s)) as [|Hnin]; [done|].
    assert (NoDup (manual_tracked s ++ [user_id])) as Hnd'.
    { apply NoDup_app. split; [done|]. split; [|apply NoDup_singleton].
      intros y Hy ->%list_elem_of_singleton. done. }
    by destruct write.
  - unfold cmd_hapus. destruct administrator; [|done]. simpl.
    destruct (py_remove user_id (manual_tracked s)) as [r|] eqn:Hr; [|done].
    destruct (py_remove_NoDup _ _ _ Hr Hnd) as [Hnd' _].
    by destruct write.
  - unfold cmd_hapus. simpl.
    destruct (py_remove user_id (manual_tracked s)) as [r|] eqn:Hr.
    + destruct (py_remove_NoDup _ _ _ Hr Hnd) as [_ Hx].
      by destruct write.
    + by apply py_remove_None.
Qed.

(** X9. [hapus] by an administrator removes one occurrence of the id and
    nothing else: the number of occurrences of the id goes down by one
    (staying at zero when there is none), and that of every other id is
    unchanged.  An id that is in the list twice is still tracked
    afterwards. *)
Theorem hapus_removes_one_occurrence (write : write_outcome)
    (user_id y : Z) (s : tracked) :
  count_occ Z.eq_dec (manual_tracked (cmd_hapus true write user_id s).1) y
  = if decide (y = user_id)
    then pred (count_occ Z.eq_dec (manual_tracked s) y)
    else count_occ Z.eq_dec (manual_tracked s) y.
Proof.
  unfold cmd_hapus. simpl.
  destruct (py_remove user_id (manual_tracked s)) as [r|] eqn:Hr.
  - rewrite <- (py_remove_count user_id (manual_tracked s) r y Hr).
    by destruct write.
  - simpl. apply py_remove_None in Hr.
    destruct (decide (y = user_id)) as [->|]; [|done].
    assert (count_occ Z.eq_dec (manual_tracked s) user_id = 0%nat) as ->; [|done].
    apply count_occ_not_In. by rewrite <- list_elem_of_In.
Qed.



(** X11. An id an administrator adds is monitored from the next tick on,
    whatever the friends list holds and whether or not the file could be
    written, unless it is the id of the account itself, which is stored
    but never monitored. *)
Theorem added_id_is_monitored (write : write_outcome) (user_id : Z)
    (s : tracked) (friends : list Z) (own : option Z) :
  user_id
  ∈ monitored friends (manual_tracked (cmd_add true write user_id s).1) own
  ↔ own ≠ Some user_id.
Proof.
  assert (user_id ∈ manual_tracked (cmd_add true write user_id s).1) as Hin.
  { unfold cmd_add. simpl.
    destruct (decide (user_id ∈ manual_tracked s)) as [|Hnin]; [done|].
    assert (user_id ∈ manual_tracked s ++ [user_id])
      by (apply elem_of_app; right; apply list_elem_of_here).
    by destruct write. }
  unfold monitored. destruct own as [o|].
  - rewrite elem_of_difference, elem_of_union, !elem_of_list_to_set,
      elem_of_singleton.
    split; [intros [_ Hne] [= ->]; done|].
    intros Hne. split; [by right|]. by intros ->.
  - rewrite elem_of_union, !elem_of_list_to_set. split; [done|]. by right.
Qed.

End CommandExtras.

(** Adding and removing id 5 on a list that holds 3 and 4. *)
Lemma add_then_hapus_witness :
  Commands.cmd_hapus true Written 5
    (Commands.cmd_add true Written 5 (Commands.Tracked [3; 4] [3; 4])).1
  = (Commands.Tracked [3; 4] [3; 4], Commands.Removed 5).
Proof.
  apply (add_then_hapus_round_trip 5 (Commands.Tracked [3; 4] [3; 4])).
  simpl. intros Hin. by repeat (apply elem_of_cons in Hin as [?|Hin];
    [done|]); apply not_elem_of_nil in Hin.
Defined.

(** An administrator on the list 3, 4, with a write that fails after the
    file was opened. *)
Lemma commands_keep_no_duplicates_witness :
  NoDup
    (Commands.manual_tracked
       (Commands.cmd_add true DumpFails 4 (Commands.Tracked [3; 4] [3])).1)
  ∧ NoDup
      (Commands.manual_tracked
         (Commands.cmd_hapus true DumpFails 4 (Commands.Tracked [3; 4] [3])).1)
  ∧ 4 ∉ Commands.manual_tracked
          (Commands.cmd_hapus true DumpFails 4 (Commands.Tracked [3; 4] [3])).1.
Proof.
  apply (commands_keep_no_duplicates true DumpFails 4
           (Commands.Tracked [3; 4] [3])).
  simpl. apply NoDup_cons. split.
  - intros Hin. apply list_elem_of_singleton in Hin. discriminate Hin.
  - apply NoDup_singleton.
Defined.

(** * Properties of the publisher over successive ticks *)
Section PublisherExtras.

Import Tracker Renderer Publisher PublisherRun Tick.

Lemma publish_healthy e content handle file :
  healthy e →
  sends (publish e content handle file).2
  = match has_handle handle with Some _ => 0%nat | None => 1%nat end
  ∧ is_Some (has_handle (publish e content handle file).1.1).
Proof.
  intros (Hf & He & id & Hs & Hid). unfold publish, try_edit.
  rewrite Hf, He, Hs.
  destruct (has_handle handle) as [h|] eqn:Hh; rewrite !persist_spec; simpl.
  - split; [by destruct (write e)|]. by rewrite Hh.
  - split; [by destruct (write e)|].
    rewrite decide_False by done. by eexists.
Qed.

Lemma publish_run_cons e content rest handle file :
  publish_run ((e, content) :: rest) handle file
  = (let r := publish e content handle file in
     let r' := publish_run rest r.1.1 r.1.2 in
     (r'.1.1, r'.1.2, r.2 ++ r'.2)).
Proof.
  cbn [publish_run].
  destruct (publish e content handle file) as [[h f] acts]. simpl.
  by destruct (publish_run rest h f) as [[h' f'] acts'].
Qed.

(** X12. On a status channel where fetch and edit succeed and a send
    yields a usable id, any number of ticks creates one message in all
    when the bot starts without a handle, and none when it starts with
    one: the message is created once and edited from then on. *)
Theorem healthy_channel_one_message (steps : list (pub_env * string))
    (handle file : option Z) :
  Forall (λ step, healthy step.1) steps →
  sends (publish_run steps handle file).2
  = match has_handle handle, steps with
    | None, _ :: _ => 1%nat
    | _, _ => 0%nat
    end.
Proof.
  intros Hall. revert handle file.
  induction Hall as [|[e content] rest He _ IH]; intros handle file.
  { simpl. by destruct (has_handle handle). }
  rewrite publish_run_cons. cbn zeta. cbn [snd]. simpl in He.
  destruct (publish_healthy e content handle file He) as [Hs [h' Hh']].
  rewrite sends_app, Hs, IH, Hh'.
  destruct (has_handle handle); destruct rest; done.
Qed.

Lemma publish_file_follows e content handle file :
  write e = Written → file = handle →
  (publish e content handle file).1.2 = (publish e content handle file).1.1.
Proof.
  intros Hw ->. unfold publish.
  destruct (has_handle handle) as [id|].
  - destruct (try_edit e id content) as [o acts].
    destruct o; rewrite ?persist_spec, ?Hw; try done;
      destruct (send_outcome e); rewrite ?persist_spec, ?Hw; done.
  - destruct (send_outcome e); rewrite ?persist_spec, ?Hw; done.
Qed.

Lemma tick_publisher py env st :
  runs env →
  status_message_id (tr_state (update_status_message py env st))
  = (publish (pub env) ("```" +:+ status_text py env st +:+ "```")
       (status_message_id st) (state_file st)).1.1
  ∧ state_file (tr_state (update_status_message py env st))
    = (publish (pub env) ("```" +:+ status_text py env st +:+ "```")
         (status_message_id st) (state_file st)).1.2.
Proof.
  intros [Hc Hf]. unfold update_status_message. rewrite Hc, Hf. simpl.
  unfold status_text, render_time. fold (tracked env st).
  by destruct (publish _ _ _ _) as [[h f] acts].
Qed.

Lemma tick_file_follows py env st :
  write (pub env) = Written →
  state_file st = status_message_id st →
  state_file (tr_state (update_status_message py env st))
  = status_message_id (tr_state (update_status_message py env st)).
Proof.
  intros Hw Heq. destruct (runs_dec env) as [Hr|Hr].
  - destruct (tick_publisher py env st Hr) as [-> ->].
    by apply publish_file_follows.
  - by destruct (tick_skipped py env st Hr) as [-> _].
Qed.

(** X13. As long as the writes of [state.json] go through, it names the
    handle the bot holds: after any number of ticks from the start of the process,
    whatever the status channel does, the content of the file is
    [status_message_id]. *)
Theorem state_file_follows_handle (py : Renderer.pylib)
    (envs : list tick_env) (file : option Z) (start : Z) :
  Forall (λ env, write (pub env) = Written) envs →
  state_file (run py envs (initial_state file start)).1
  = status_message_id (run py envs (initial_state file start)).1.
Proof.
  intros Hall.
  assert (∀ st, state_file st = status_message_id st →
            state_file (run py envs st).1
            = status_message_id (run py envs st).1) as Hrun.
  { induction Hall as [|env rest Hw _ IH]; intros st Hst; [done|].
    rewrite run_state_cons. apply IH. by apply tick_file_follows. }
  by apply Hrun.
Qed.

(** X14. A handle is never forgotten: if the bot holds a handle and the
    channel never hands out the id 0, it still holds a handle after
    publishing, whichever of fetch, edit, send and the file write fail. *)
Theorem handle_never_lost (e : pub_env) (content : string)
    (handle file : option Z) :
  (∀ id, send_outcome e = Some id → id ≠ 0) →
  is_Some (has_handle handle) →
  is_Some (has_handle (publish e content handle file).1.1).
Proof.
  intros Hid [h Hh]. unfold publish. rewrite Hh.
  destruct (try_edit e h content) as [o acts].
  destruct o; rewrite ?persist_spec; simpl; rewrite ?Hh; try by eexists.
  destruct (send_outcome e) as [sent|] eqn:Hs; rewrite ?persist_spec; simpl.
  - rewrite decide_False by (by apply Hid). by eexists.
  - rewrite Hh. by eexists.
Qed.

End PublisherExtras.

(** Two ticks on a channel where every call succeeds, from no handle. *)
Lemma healthy_channel_witness :
  Publisher.sends
    (PublisherRun.publish_run
       [(Examples.channel_ok, "a"); (Examples.channel_ok, "b")] None None).2
  = 1%nat.
Proof.
  apply (healthy_channel_one_message
           [(Examples.channel_ok, "a"); (Examples.channel_ok, "b")] None None).
  repeat constructor; by eexists.
Defined.

(** Three ticks on a channel whose message is gone. *)
Lemma state_file_follows_handle_witness :
  let envs :=
    [Tick.with_pub Examples.tick_in_game Examples.channel_message_gone;
     Tick.with_pub Examples.tick_idle Examples.channel_message_gone;
     Tick.with_pub Examples.tick_offline Examples.channel_message_gone] in
  state_file (Tick.run Examples.plain_lib envs (initial_state (Some 5) 0)).1
  = status_message_id
      (Tick.run Examples.plain_lib envs (initial_state (Some 5) 0)).1.
Proof.
  apply (state_file_follows_handle Examples.plain_lib
           [Tick.with_pub Examples.tick_in_game Examples.channel_message_gone;
            Tick.with_pub Examples.tick_idle Examples.channel_message_gone;
            Tick.with_pub Examples.tick_offline Examples.channel_message_gone]
           (Some 5) 0).
  repeat constructor.
Defined.

(** A channel on which every call fails, with a handle held. *)
Lemma handle_never_lost_witness :
  is_Some
    (Publisher.has_handle
       (Publisher.publish Examples.channel_down "box" (Some 77) (Some 77)).1.1).
Proof.
  apply (handle_never_lost Examples.channel_down "box" (Some 77) (Some 77)).
  - intros id Hid. discriminate Hid.
  - by eexists.
Defined.

(** * Properties of the restart coordinator *)
Section RestartExtras.

Import Renderer Restart.

Lemma warnings_of_check start now send_ok :
  warnings (auto_restart_check start now true send_ok)
  = if decide (in_warning_window start now) then 1%nat else 0%nat.
Proof.
  destruct (decide (in_warning_window start now)) as [Hw|Hw].
  - unfold auto_restart_check, in_warning_window in *.
    rewrite decide_True by lia. simpl.
    destruct send_ok; simpl; [|done].
    rewrite decide_False; [done|]. unfold RESTART_INTERVAL in *. lia.
  - by apply no_warning_outside_window.
Qed.

(** X15. A check sends the warning exactly when the notification channel
    is found and the elapsed whole seconds are at least the interval minus
    300 and less than the interval minus 295; so over any sequence of
    checks the number of warnings is the number of checks made in that
    window. *)
Theorem warning_exactly_in_window (start : Z) (nows : list Z)
    (send_ok : bool) :
  (∀ now ch, SendWarning ∈ auto_restart_check start now ch send_ok
             ↔ ch = true ∧ in_warning_window start now)
  ∧ warnings (checks start nows true send_ok)
    = length (filter (in_warning_window start) nows).
Proof.
  split.
  - intros now ch. unfold auto_restart_check, in_warning_window.
    destruct (decide (RESTART_INTERVAL - elapsed_seconds start now ≤ 300
                      ∧ 295 < RESTART_INTERVAL - elapsed_seconds start now))
      as [Hw|Hw];
      destruct (decide (RESTART_INTERVAL ≤ elapsed_seconds start now))
        as [Hd|Hd];
      destruct ch, send_ok; simpl;
      rewrite ?elem_of_cons, ?elem_of_nil; split;
      try (intros [? ?]); try (intros [?|?]); try done; try lia;
      naive_solver lia.
  - induction nows as [|now nows IH]; [done|].
    unfold checks in *. rewrite fmap_cons, concat_cons.
    unfold warnings in *. rewrite List.filter_app, length_app, IH.
    fold (warnings (auto_restart_check start now true send_ok)).
    rewrite warnings_of_check, filter_cons.
    by destruct (decide (in_warning_window start now)).
Qed.

Lemma notices_of_check start now :
  notices (auto_restart_check start now true true)
  = if decide (restart_due start now) then 1%nat else 0%nat.
Proof.
  unfold auto_restart_check, restart_due.
  destruct (decide (RESTART_INTERVAL - elapsed_seconds start now ≤ 300
                    ∧ 295 < RESTART_INTERVAL - elapsed_seconds start now));
    destruct (decide (RESTART_INTERVAL ≤ elapsed_seconds start now)); done.
Qed.

(** X16. The automatic restart never takes place.  No check calls
    [os.execv]: a check made when the elapsed whole seconds have reached
    the interval sends the restart notice if the channel is found, pauses
    if that send did not raise, and ends in the handler of the exception;
    no check sends both the warning and the notice.  The process goes on,
    so with a working channel the notice is sent again at every later
    check: over any sequence of checks the number of notices is the number
    of checks made at or after the interval. *)
Theorem restart_never_takes_place (start now : Z) (ch send_ok : bool)
    (nows : list Z) :
  let acts := auto_restart_check start now ch send_ok in
  (Execv ∉ acts)
  ∧ (SendRestartNotice ∈ acts ↔ ch = true ∧ restart_due start now)
  ∧ (Sleep ∈ acts ↔ restart_due start now ∧ (ch = false ∨ send_ok = true))
  ∧ (LogException ∈ acts
     ↔ restart_due start now
       ∨ (in_warning_window start now ∧ ch = true ∧ send_ok = false))
  ∧ (if decide (restart_due start now) then last acts = Some LogException
     else True)
  ∧ ¬ (SendWarning ∈ acts ∧ SendRestartNotice ∈ acts)
  ∧ notices (checks start nows true true)
    = length (filter (restart_due start) nows).
Proof.
  cbv zeta. split; [|split; [|split; [|split; [|split; [|split]]]]].
  7: { induction nows as [|t nows IH]; [done|].
       unfold checks in *. rewrite fmap_cons, concat_cons.
       unfold notices in *. rewrite List.filter_app, length_app, IH.
       fold (notices (auto_restart_check start t true true)).
       rewrite notices_of_check, filter_cons.
       by destruct (decide (restart_due start t)). }
  all: unfold auto_restart_check, restart_due, in_warning_window;
    destruct (decide (RESTART_INTERVAL - elapsed_seconds start now ≤ 300
                      ∧ 295 < RESTART_INTERVAL - elapsed_seconds start now))
      as [Hw|Hw];
    destruct (decide (RESTART_INTERVAL ≤ elapsed_seconds start now))
      as [Hd|Hd];
    destruct ch, send_ok; simpl;
    rewrite ?elem_of_cons, ?elem_of_nil;
    try (unfold RESTART_INTERVAL in *; lia); try done;
    naive_solver lia.
Qed.

End RestartExtras.

(** * Properties of the renderer's helpers *)
Section RendererExtras.

Import Tracker Renderer.

(** X17. The progress bar always has [BAR_LENGTH] cells: the number of
    filled cells lies between 0 and 20 for every elapsed time, negative or
    beyond the interval, filled and unfilled cells add up to 20, the bar is
    empty up to elapsed 0, full from the interval on, and never shrinks as
    time goes on. *)
Theorem progress_bar_cells (elapsed elapsed' : Z) :
  0 ≤ filled elapsed ≤ BAR_LENGTH
  ∧ (Z.to_nat (filled elapsed) + Z.to_nat (BAR_LENGTH - filled elapsed))%nat
    = 20%nat
  ∧ (if decide (elapsed ≤ 0) then filled elapsed = 0 else True)
  ∧ (if decide (RESTART_INTERVAL ≤ elapsed) then filled elapsed = BAR_LENGTH
     else filled elapsed < BAR_LENGTH)
  ∧ (if decide (elapsed ≤ elapsed') then filled elapsed ≤ filled elapsed'
     else True).
Proof.
  unfold filled, BAR_LENGTH, RESTART_INTERVAL.
  assert (∀ e, 0 ≤ (Z.min (Z.max e 0) (12 * 60 * 60) * 20) `div` (12 * 60 * 60)
               ≤ 20) as Hb.
  { intros e. split.
    - apply Z.div_pos; lia.
    - apply Z.div_le_upper_bound; lia. }
  split; [apply Hb|]. split; [specialize (Hb elapsed); lia|].
  split; [|split].
  - case_decide as H0; [|done].
    replace (Z.max elapsed 0) with 0 by lia. done.
  - case_decide as Hd.
    + replace (Z.min (Z.max elapsed 0) (12 * 60 * 60)) with (12 * 60 * 60)
        by lia. done.
    + apply Z.div_lt_upper_bound; lia.
  - case_decide as Hle; [|done].
    apply Z.div_le_mono; lia.
Qed.

(** X20. A negative duration of less than an hour, as a clock set back
    between two readings produces, is shown with [-1h]: [divmod] rounds
    down, so the hours are -1 and minutes and seconds count up from that;
    for instance minus five seconds reads [-1h 59m 55s]. *)
Theorem format_timedelta_negative (td : Z) :
  -3600 * 1000000 < td ≤ -1000000 →
  format_timedelta td
  = "-1h " +:+ pretty (((td ÷ 1000000) `mod` 3600) `div` 60) +:+ "m "
    +:+ pretty (((td ÷ 1000000) `mod` 3600) `mod` 60) +:+ "s"
  ∧ 0 ≤ ((td ÷ 1000000) `mod` 3600) `div` 60 < 60
  ∧ 0 ≤ ((td ÷ 1000000) `mod` 3600) `mod` 60 < 60.
Proof.
  intros Htd. unfold format_timedelta.
  assert (td ÷ 1000000 = - ((- td) `div` 1000000)) as Hquot.
  { rewrite <- (Z.quot_div_nonneg (- td)) by lia.
    rewrite Z.quot_opp_l by lia. lia. }
  assert (-3600 < td ÷ 1000000 ≤ -1) as Hsecs.
  { rewrite Hquot.
    assert (1 ≤ (- td) `div` 1000000) by (apply Z.div_le_lower_bound; lia).
    assert ((- td) `div` 1000000 < 3600)
      by (apply Z.div_lt_upper_bound; lia).
    lia. }
  assert ((td ÷ 1000000) `div` 3600 = -1) as Hh.
  { symmetry. apply (Z.div_unique _ _ _ (td ÷ 1000000 + 3600)); lia. }
  rewrite Hh. rewrite decide_True by done. split; [done|].
  pose proof (Z.mod_pos_bound (td ÷ 1000000) 3600) as Hm.
  split.
  - split; [apply Z.div_pos; lia|apply Z.div_lt_upper_bound; lia].
  - apply Z.mod_pos_bound. lia.
Qed.

End RendererExtras.

(** Minus five seconds. *)
Lemma format_timedelta_negative_witness :
  format_timedelta (-5000000)
  = "-1h " +:+ pretty (((-5000000 ÷ 1000000) `mod` 3600) `div` 60) +:+ "m "
    +:+ pretty (((-5000000 ÷ 1000000) `mod` 3600) `mod` 60) +:+ "s"
  ∧ 0 ≤ ((-5000000 ÷ 1000000) `mod` 3600) `div` 60 < 60
  ∧ 0 ≤ ((-5000000 ÷ 1000000) `mod` 3600) `mod` 60 < 60.
Proof. apply (format_timedelta_negative (-5000000)). lia. Defined.

(** * Further properties of the tracker *)
Section TrackerExtras.

Import Tracker Renderer Publisher Tick.

Variable py : Renderer.pylib.

Local Abbreviation tick := (update_status_message py).

Lemma dict_get_set {V} (k k' : Z) (v : V) (d : list (Z * V)) :
  dict_get k (dict_set k' v d)
  = if decide (k = k') then Some v else dict_get k d.
Proof.
  induction d as [|[k'' v''] d IH]; cbn [dict_set dict_get]; [done|].
  destruct (decide (k' = k'')) as [->|Hne]; cbn [dict_get].
  - by destruct (decide (k = k'')).
  - rewrite IH. destruct (decide (k = k'')) as [->|]; [|done].
    by rewrite decide_False.
Qed.

Lemma presence_map_fold_get uid ps d :
  dict_get uid (foldl (λ d p, dict_set (userId p) p d) d ps)
  = match last (List.filter (λ p, bool_decide (userId p = uid)) ps) with
    | Some p => Some p
    | None => dict_get uid d
    end.
Proof.
  revert d. induction ps as [|p ps IH]; intros d; [done|].
  cbn [foldl List.filter]. rewrite IH, dict_get_set.
  destruct (decide (uid = userId p)) as [->|Hne].
  - rewrite bool_decide_eq_true_2 by done. rewrite last_cons.
    by destruct (last _).
  - rewrite bool_decide_eq_false_2; [done|]. by intros <-.
Qed.

(** X21. When a response holds several presence objects for one id, the
    last of them is the snapshot of that id; an id with no object has no
    snapshot. *)
Theorem snapshot_is_last_object (env : tick_env) (uid : Z) :
  snapshot env uid
  = last (List.filter (λ p, bool_decide (userId p = uid)) (presences env)).
Proof.
  unfold snapshot, presence_map. rewrite presence_map_fold_get.
  by destruct (last _).
Qed.

Lemma track_loop_lines last um clock i items s :
  dl_name <$> ls_display_lines (track_loop last um clock i items s)
  = (dl_name <$> ls_display_lines s)
    ++ ((λ kp, user_name um kp.1)
          <$> List.filter (λ kp, is_online kp.2) items).
Proof.
  revert i s. induction items as [|[uid p] items IH]; intros i s.
  { simpl. by rewrite app_nil_r. }
  cbn [track_loop List.filter snd]. rewrite IH. unfold track_one.
  destruct (is_online p); simpl.
  - by rewrite fmap_app, <- app_assoc.
  - by destruct (decide (uid ∈ last)).
Qed.

Lemma filter_keys_NoDup {V} (f : Z * V → bool) (d : list (Z * V)) :
  NoDup d.*1 → NoDup (List.filter f d).*1.
Proof.
  induction d as [|[k v] d IH]; intros Hnd; [done|].
  rewrite fmap_cons in Hnd. apply NoDup_cons in Hnd as [Hk Hnd].
  cbn [List.filter]. destruct (f (k, v)); [|by apply IH].
  rewrite fmap_cons. apply NoDup_cons. split; [|by apply IH].
  intros Hin. apply Hk. apply list_elem_of_fmap in Hin as ([k' v'] & -> & Hin).
  apply list_elem_of_In, filter_In in Hin as [Hin _].
  apply list_elem_of_fmap. exists (k', v'). split; [done|].
  by apply list_elem_of_In.
Qed.

(** X22. The loop produces one display line per identity whose snapshot
    is not Offline, in the order of [presence_map], under the name found
    in [username_map] or else the decimal id; so the number the status
    box shows as friends online is the size of [current_online_set]. *)
Theorem display_lines_are_online_ids (env : tick_env) (st : bot_state) :
  dl_name <$> ls_display_lines (tracked env st)
  = (λ kp, user_name (username_map env) kp.1)
      <$> List.filter (λ kp, is_online kp.2) (presence_map (presences env))
  ∧ length (ls_display_lines (tracked env st))
    = size (ls_current_online_set (tracked env st)).
Proof.
  assert (dl_name <$> ls_display_lines (tracked env st)
          = (λ kp, user_name (username_map env) kp.1)
              <$> List.filter (λ kp, is_online kp.2)
                    (presence_map (presences env))) as Hnames.
  { unfold tracked. by rewrite track_loop_lines. }
  split; [done|].
  apply (f_equal length) in Hnames. rewrite !length_fmap in Hnames.
  rewrite Hnames.
  assert (ls_current_online_set (tracked env st) = snapshot_online_set env)
    as ->.
  { apply set_eq. intros uid.
    by rewrite tracked_current_iff, snapshot_online_set_spec. }
  unfold snapshot_online_set. rewrite size_list_to_set.
  - by rewrite length_fmap.
  - apply filter_keys_NoDup, presence_map_NoDup.
Qed.

Lemma timers_cover_tick env st :
  timers_cover st → timers_cover (tr_state (tick env st)).
Proof.
  intros Hst. destruct (runs_dec env) as [Hr|Hr]; last first.
  { by destruct (tick_skipped py env st Hr) as [-> _]. }
  intros uid. destruct (Hst uid) as [_ Hg].
  destruct (tick_tracker py env st Hr) as (-> & -> & -> & _).
  destruct (snapshot env uid) as [p|] eqn:Hs.
  - destruct (tracked_present env st uid p Hs) as (k & _ & Hv).
    unfold view, step_view in Hv. destruct (is_online p).
    + injection Hv as -> _ _ _. split; by eexists.
    + destruct (decide (uid ∈ last_online_set st)).
      * injection Hv as -> -> Hc _. apply bool_decide_eq_false_1 in Hc.
        split; [done|by intros [? ?]].
      * injection Hv as -> -> Hc _. apply bool_decide_eq_false_1 in Hc.
        split; [done|exact Hg].
  - pose proof (tracked_absent env st uid Hs) as Hv.
    unfold view in Hv. injection Hv as -> -> Hc _.
    apply bool_decide_eq_false_1 in Hc. split; [done|exact Hg].
Qed.

(** X23. After any number of ticks from the start of the process, every
    id of [last_online_set] has an [online_since] entry, and so has every
    id with a [game_since] entry: when the offline branch runs, it finds
    the online timer, and the fallback to a zero total is never taken. *)
Theorem last_online_ids_have_timers (envs : list tick_env)
    (file : option Z) (start : Z) :
  last_online_set (run py envs (initial_state file start)).1
  ⊆ dom (online_since (run py envs (initial_state file start)).1)
  ∧ dom (game_since (run py envs (initial_state file start)).1)
    ⊆ dom (online_since (run py envs (initial_state file start)).1).
Proof.
  assert (∀ st, timers_cover st → timers_cover (run py envs st).1)
    as Hrun.
  { induction envs as [|env rest IH]; intros st Hst; [done|].
    rewrite run_state_cons. apply IH. by apply timers_cover_tick. }
  assert (timers_cover (initial_state file start)) as Hinit.
  { intros uid. simpl. split.
    - by intros ?%not_elem_of_empty.
    - rewrite lookup_empty. by intros [? ?]. }
  specialize (Hrun _ Hinit).
  split; intros uid Huid; apply elem_of_dom; destruct (Hrun uid) as [H1 H2].
  - by apply H1.
  - apply H2. by apply elem_of_dom.
Qed.

(** X24. A tick never overwrites an online timer.  An existing
    [online_since] entry is either kept as it is or removed together with
    an offline notification for the identity; a missing entry stays
    missing or is set, for an identity that appears online, to a clock
    reading of this tick. *)
Theorem online_timer_never_overwritten (env : tick_env) (st : bot_state)
    (uid : Z) :
  match online_since st !! uid with
  | Some o =>
      online_since (tr_state (tick env st)) !! uid = Some o
      ∨ (online_since (tr_state (tick env st)) !! uid = None
         ∧ offline_events uid (tr_events (tick env st)) ≠ [])
  | None =>
      online_since (tr_state (tick env st)) !! uid = None
      ∨ (appears_online env uid = true
         ∧ ∃ k, online_since (tr_state (tick env st)) !! uid
                = Some (clock env k))
  end.
Proof.
  destruct (runs_dec env) as [Hr|Hr]; last first.
  { destruct (tick_skipped py env st Hr) as [-> _].
    destruct (online_since st !! uid); by left. }
  rewrite (offline_events_tick py env st uid Hr).
  destruct (tick_tracker py env st Hr) as (-> & _ & _ & _).
  unfold appears_online.
  destruct (snapshot env uid) as [p|] eqn:Hs.
  - destruct (tracked_present env st uid p Hs) as (k & _ & Hv).
    unfold view, step_view in Hv. destruct (is_online p).
    + injection Hv as -> _ _ _.
      destruct (online_since st !! uid); [by left|].
      right. split; [done|]. by exists k.
    + destruct (decide (uid ∈ last_online_set st)).
      * injection Hv as -> _ _ ->.
        destruct (online_since st !! uid); [by right|by left].
      * injection Hv as -> _ _ _. destruct (online_since st !! uid); by left.
  - pose proof (tracked_absent env st uid Hs) as Hv.
    unfold view in Hv. injection Hv as -> _ _ _.
    destruct (online_since st !! uid); by left.
Qed.

Lemma timers_kept_while_active env st uid o g :
  online_since st !! uid = Some o → game_since st !! uid = Some g →
  snapshot_kind env uid = Some OnlineActive →
  online_since (tr_state (tick env st)) !! uid = Some o
  ∧ game_since (tr_state (tick env st)) !! uid = Some g.
Proof.
  intros Ho Hg Hk. destruct (runs_dec env) as [Hr|Hr]; last first.
  { by destruct (tick_skipped py env st Hr) as [-> _]. }
  destruct (tick_tracker py env st Hr) as (-> & -> & _ & _).
  unfold snapshot_kind in Hk.
  destruct (snapshot env uid) as [p|] eqn:Hs; [|done]. injection Hk as Hk.
  destruct (tracked_present env st uid p Hs) as (k & _ & Hv).
  unfold view, step_view in Hv.
  destruct (kind_of_cases p) as [[Hk' _]|[(_ & Hon & Ht)|(Hk' & _)]];
    [congruence| |congruence].
  rewrite Hon, Ho, Hg in Hv. rewrite decide_True in Hv by done.
  by injection Hv as -> -> _ _.
Qed.

(** X25. An identity first seen in a game keeps the two timers of that
    moment for as long as every tick reports it in a game: after any
    number of such ticks, [online_since] and [game_since] both hold the
    clock reading of the iteration that first handled it, so the durations
    shown are measured from the first observation. *)
Theorem timers_start_at_first_observation (env : tick_env)
    (envs : list tick_env) (st : bot_state) (uid : Z) :
  runs env →
  online_since st !! uid = None → game_since st !! uid = None →
  snapshot_kind env uid = Some OnlineActive →
  Forall (λ env', snapshot_kind env' uid = Some OnlineActive) envs →
  ∃ k p,
    presence_map (presences env) !! k = Some (uid, p)
    ∧ online_since (run py envs (tr_state (tick env st))).1 !! uid
      = Some (clock env k)
    ∧ game_since (run py envs (tr_state (tick env st))).1 !! uid
      = Some (clock env k).
Proof.
  intros Hr Ho Hg Hk Hall.
  assert (∃ k p, presence_map (presences env) !! k = Some (uid, p)
                 ∧ online_since (tr_state (tick env st)) !! uid
                   = Some (clock env k)
                 ∧ game_since (tr_state (tick env st)) !! uid
                   = Some (clock env k)) as (k & p & Hitem & Ho' & Hg').
  { destruct (tick_tracker py env st Hr) as (-> & -> & _ & _).
    unfold snapshot_kind in Hk.
    destruct (snapshot env uid) as [p|] eqn:Hs; [|done]. injection Hk as Hk.
    destruct (tracked_present env st uid p Hs) as (k & Hitem & Hv).
    unfold view, step_view in Hv.
    destruct (kind_of_cases p) as [[Hk' _]|[(_ & Hon & Ht)|(Hk' & _)]];
      [congruence| |congruence].
    rewrite Hon, Ho, Hg in Hv. rewrite decide_True in Hv by done.
    injection Hv as Ho' Hg' _ _. by exists k, p. }
  exists k, p. split; [done|].
  generalize dependent (tr_state (tick env st)). clear Hitem.
  induction Hall as [|env' rest Hk' _ IH]; intros st' Ho' Hg'; [done|].
  rewrite run_state_cons.
  destruct (timers_kept_while_active env' st' uid _ _ Ho' Hg' Hk')
    as [Ho'' Hg''].
  by apply IH.
Qed.

End TrackerExtras.

(** Alice in a game at three ticks, thirty seconds apart. *)
Lemma timers_start_witness :
  ∃ k p,
    Tracker.presence_map (Tick.presences Examples.tick_in_game) !! k
    = Some (Examples.alice, p)
    ∧ online_since
        (Tick.run Examples.plain_lib
           [Examples.tick_at (Examples.seconds 130) [Examples.alice_in_game];
            Examples.tick_at (Examples.seconds 160) [Examples.alice_in_game]]
           (Tick.tr_state
              (Tick.update_status_message Examples.plain_lib
                 Examples.tick_in_game Examples.fresh))).1 !! Examples.alice
      = Some (Tick.clock Examples.tick_in_game k)
    ∧ game_since
        (Tick.run Examples.plain_lib
           [Examples.tick_at (Examples.seconds 130) [Examples.alice_in_game];
            Examples.tick_at (Examples.seconds 160) [Examples.alice_in_game]]
           (Tick.tr_state
              (Tick.update_status_message Examples.plain_lib
                 Examples.tick_in_game Examples.fresh))).1 !! Examples.alice
      = Some (Tick.clock Examples.tick_in_game k).
Proof.
  apply (timers_start_at_first_observation Examples.plain_lib
           Examples.tick_in_game
           [Examples.tick_at (Examples.seconds 130) [Examples.alice_in_game];
            Examples.tick_at (Examples.seconds 160) [Examples.alice_in_game]]
           Examples.fresh Examples.alice).
  - split; reflexivity.
  - reflexivity.
  - reflexivity.
  - vm_compute. reflexivity.
  - repeat constructor.
Defined.
